(** * IntSet and sequence: two containers over a hand-managed dynamic array

    Shallow embedding of [Assignment 2/IntSet.cpp] (the dynamic-array
    [IntSet]) and [Assignment 3/Sequence.cpp] (the cursor [sequence]).

    The backing array of an object is a [list] with one element per
    allocated cell.  The member [capacity] is kept as the separate field
    the classes have.  A program run either finishes ([Ok]) or stops with
    a [fault].  C++ gives no meaning to an access outside the allocated
    cells; the model treats the two directions as follows:
    - a store outside the cells is the fault [StrayStore];
    - a load outside the cells yields the indeterminate value [indet],
      the same one that a cell nobody has written yet holds.
    The member functions of [sequence] that change the array also keep a
    log of the indices they touched.

    IntSet.h and Sequence.h are not part of the sources at hand.  What
    they declare enters as a parameter: [DEFAULT_CAPACITY], the default
    argument of the constructors, [value_type].  A local variable that the
    code reads before it has assigned it enters as a parameter too: the
    value it happens to hold. *)

From Stdlib Require Import ZArith Lia.
From stdpp Require Import base list numbers.

Local Open Scope Z_scope.

(** ** Outcomes of a run *)

Inductive fault : Type :=
  | StrayStore (index allocated : Z)   (* data[index] = ..., index outside the cells *)
  | BadArrayLength (n : Z)             (* new T[n] with n negative *)
  | AssertionFailed                    (* assert(...) failed *)
  | OutOfFuel.                         (* the iteration budget of a modelled loop ran out *)

Inductive result (A : Type) : Type :=
  | Ok (a : A)
  | Fault (f : fault).

Arguments Ok {A} a.
Arguments Fault {A} f.

Definition bind {A B : Type} (r : result A) (k : A -> result B) : result B :=
  match r with
  | Ok a => k a
  | Fault f => Fault f
  end.

Declare Scope run_scope.
Delimit Scope run_scope with run.
Notation "x <- r ;; k" := (bind r (fun x => k))
  (at level 100, r at next level, right associativity) : run_scope.
Local Open Scope run_scope.

(** ** Arrays *)

Module Arr.
Section Cells.
Context {T : Type}.
Variable indet : T.

Definition allocated (d : list T) : Z := Z.of_nat (length d).

(** [new T[n]]: n cells that nobody has written. *)
Definition new_array (n : Z) : result (list T) :=
  if n <? 0 then Fault (BadArrayLength n)
  else Ok (replicate (Z.to_nat n) indet).

(** [d[i]] as an rvalue. *)
Definition load (d : list T) (i : Z) : T :=
  if i <? 0 then indet else default indet (d !! Z.to_nat i).

(** [d[i] = v]. *)
Definition store (d : list T) (i : Z) (v : T) : result (list T) :=
  if (0 <=? i) && (Z.to_nat i <? length d)%nat
  then Ok (<[Z.to_nat i := v]> d)
  else Fault (StrayStore i (allocated d)).

(** [for (i = from; n more times; i++) dst[i] = src[i];] *)
Fixpoint copy_cells (n : nat) (i : Z) (src dst : list T) : result (list T) :=
  match n with
  | O => Ok dst
  | S k => dst' <- store dst i (load src i) ;; copy_cells k (i + 1) src dst'
  end.
End Cells.
End Arr.

(** ** The IntSet class (Assignment 2) *)

Module IntSet.
Section Class.
(** [DEFAULT_CAPACITY] is declared in IntSet.h, which also makes it the
    default argument of the constructor. *)
Variable DEFAULT_CAPACITY : Z.
(** What an [int] cell holds before anybody writes it. *)
Variable indet : Z.
(** What the locals [found] (contains), [isSubset] (isSubsetOf) and
    [same] (operator==) hold when they are read before any assignment:
    they are declared without an initialiser. *)
Variables found0 isSubset0 same0 : bool.

(** [used] and [capacity] are [int]s; the model does not go near the
    ends of the [int] range. *)
Record IntSet : Type := Build {
  data : list Z;
  used : Z;
  capacity : Z
}.

Definition set_used (s : IntSet) (u : Z) : IntSet :=
  Build (data s) u (capacity s).

(** IntSet::resize *)
Definition resize (s : IntSet) (new_capacity : Z) : result IntSet :=
  let new_capacity := if new_capacity <? used s then used s else new_capacity in
  let new_capacity :=
    if new_capacity <? DEFAULT_CAPACITY then DEFAULT_CAPACITY else new_capacity in
  newData <- Arr.new_array indet new_capacity ;;
  newData <- Arr.copy_cells indet (Z.to_nat (used s)) 0 (data s) newData ;;
  Ok (Build newData (used s) new_capacity).

(** IntSet::IntSet(int initial_capacity) *)
Definition ctor (initial_capacity : Z) : result IntSet :=
  let capacity := initial_capacity in
  let capacity := if capacity <? 1 then DEFAULT_CAPACITY else capacity in
  d <- Arr.new_array indet capacity ;;
  Ok (Build d 0 capacity).

(** [IntSet x;] *)
Definition ctor_default : result IntSet := ctor DEFAULT_CAPACITY.

(** IntSet::IntSet(const IntSet& src) *)
Definition copy_ctor (src : IntSet) : result IntSet :=
  d <- Arr.new_array indet (capacity src) ;;
  d <- Arr.copy_cells indet (Z.to_nat (used src)) 0 (data src) d ;;
  Ok (Build d (used src) (capacity src)).

(** IntSet::operator=, for [rhs] an object other than [*this] (the
    only use in this file assigns a temporary). *)
Definition assign (this rhs : IntSet) : result IntSet :=
  newData <- Arr.new_array indet (capacity rhs) ;;
  newData <- Arr.copy_cells indet (Z.to_nat (used rhs)) 0 (data rhs) newData ;;
  Ok (Build newData (used rhs) (capacity rhs)).

(** IntSet::size *)
Definition size (s : IntSet) : Z := used s.

(** IntSet::isEmpty *)
Definition isEmpty (s : IntSet) : bool :=
  if size s =? 0 then true else false.

(** [while (found != true && index < used)] with [n] indices left. *)
Fixpoint contains_scan (n : nat) (index : Z) (found : bool)
    (s : IntSet) (anInt : Z) : bool :=
  match n with
  | O => found
  | S k =>
      if found then found
      else contains_scan k (index + 1)
             (if Arr.load indet (data s) index =? anInt then true else false)
             s anInt
  end.

(** IntSet::contains *)
Definition contains (s : IntSet) (anInt : Z) : bool :=
  if isEmpty s then false
  else contains_scan (Z.to_nat (used s)) 0 found0 s anInt.

(** The loop of [isSubsetOf], [n] indices left. *)
Fixpoint subset_scan (n : nat) (i : Z) (isSubset : bool)
    (s otherIntSet : IntSet) : bool :=
  match n with
  | O => isSubset
  | S k =>
      if contains otherIntSet (Arr.load indet (data s) i)
      then subset_scan k (i + 1) true s otherIntSet
      else false
  end.

(** IntSet::isSubsetOf *)
Definition isSubsetOf (s otherIntSet : IntSet) : bool :=
  if isEmpty s then true
  else if used otherIntSet <? used s then false
  else subset_scan (Z.to_nat (used s)) 0 isSubset0 s otherIntSet.

(** The inner loop of [remove]:
    [for (j = i; j < used - 1; j++) data[j] = data[j + 1];] *)
Fixpoint remove_shift (n : nat) (j : Z) (d : list Z) : result (list Z) :=
  match n with
  | O => Ok d
  | S k => d' <- Arr.store d j (Arr.load indet d (j + 1)) ;; remove_shift k (j + 1) d'
  end.

(** The search loop of [remove], [n] indices left.  The call of
    [std::copy] copies [data[i .. used)] onto itself. *)
Fixpoint remove_search (n : nat) (i : Z) (s : IntSet) (anInt : Z)
    : result (IntSet * bool) :=
  match n with
  | O => Ok (s, false)
  | S k =>
      if Arr.load indet (data s) i =? anInt then
        d <- remove_shift (Z.to_nat (used s - 1 - i)) i (data s) ;;
        d <- Arr.copy_cells indet (Z.to_nat (used s - i)) i d d ;;
        Ok (Build d (used s - 1) (capacity s), true)
      else remove_search k (i + 1) s anInt
  end.

(** IntSet::remove *)
Definition remove (s : IntSet) (anInt : Z) : result (IntSet * bool) :=
  if negb (contains s anInt) || isEmpty s then Ok (s, false)
  else remove_search (Z.to_nat (used s)) 0 s anInt.

(** IntSet::add.  [int(1.5 * capacity) + 1] truncates towards zero. *)
Definition add (s : IntSet) (anInt : Z) : result (IntSet * bool) :=
  if isEmpty s then
    d <- Arr.store (data s) (used s) anInt ;;
    Ok (Build d (used s + 1) (capacity s), true)
  else
    let addSuccessful := if negb (contains s anInt) then false else true in
    s <- (if capacity s <=? used s
          then resize s (Z.quot (3 * capacity s) 2 + 1) else Ok s) ;;
    d <- Arr.store (data s) (used s) anInt ;;
    let addSuccessful := true in
    Ok (Build d (used s + 1) (capacity s), addSuccessful).

(** IntSet::reset *)
Definition reset (s : IntSet) : IntSet := set_used s 0.

(** The inner loop of [intersect] at row [i], [n] columns left; the
    state is the array of [intersection] and [foundAlike]. *)
Fixpoint intersect_inner (n : nat) (j : Z) (i : Z) (s otherIntSet : IntSet)
    (st : list Z * Z) : result (list Z * Z) :=
  match n with
  | O => Ok st
  | S k =>
      let '(d, foundAlike) := st in
      if Arr.load indet (data s) i =? Arr.load indet (data otherIntSet) j then
        d' <- Arr.store d foundAlike (Arr.load indet (data otherIntSet) j) ;;
        intersect_inner k (j + 1) i s otherIntSet (d', foundAlike + 1)
      else intersect_inner k (j + 1) i s otherIntSet st
  end.

Fixpoint intersect_outer (n : nat) (i : Z) (s otherIntSet : IntSet)
    (st : list Z * Z) : result (list Z * Z) :=
  match n with
  | O => Ok st
  | S k =>
      st' <- intersect_inner (Z.to_nat (used otherIntSet)) 0 i s otherIntSet st ;;
      intersect_outer k (i + 1) s otherIntSet st'
  end.

(** IntSet::intersect *)
Definition intersect (s otherIntSet : IntSet) : result IntSet :=
  intersection <- ctor_default ;;
  let intersection := set_used intersection (used s) in
  if isEmpty otherIntSet then Ok (set_used intersection (used otherIntSet))
  else
    st <- intersect_outer (Z.to_nat (used s)) 0 s otherIntSet (data intersection, 0) ;;
    let '(d, foundAlike) := st in
    Ok (Build d foundAlike (capacity intersection)).

(** The inner loop of [subtract] at index [i], [n] columns left. *)
Fixpoint subtract_inner (n : nat) (j : Z) (i : Z) (diff otherIntSet : IntSet)
    : result IntSet :=
  match n with
  | O => Ok diff
  | S k =>
      if Arr.load indet (data diff) i =? Arr.load indet (data otherIntSet) j then
        removed <- remove diff (Arr.load indet (data diff) i) ;;
        subtract_inner k (j + 1) i (fst removed) otherIntSet
      else subtract_inner k (j + 1) i diff otherIntSet
  end.

(** [for (int i = 0; i < diff.used; i++)]: [diff.used] is read afresh
    each round and only ever goes down, so the rounds number at most
    the first [diff.used]; that is the budget handed in. *)
Fixpoint subtract_outer (budget : nat) (i : Z) (diff otherIntSet : IntSet)
    : result IntSet :=
  if i <? used diff then
    match budget with
    | O => Fault OutOfFuel
    | S k =>
        diff' <- subtract_inner (Z.to_nat (used otherIntSet)) 0 i diff otherIntSet ;;
        subtract_outer k (i + 1) diff' otherIntSet
    end
  else Ok diff.

(** IntSet::subtract *)
Definition subtract (s otherIntSet : IntSet) : result IntSet :=
  diff <- ctor_default ;;
  let diff := set_used diff (used s) in
  if isEmpty otherIntSet then
    d <- Arr.copy_cells indet (Z.to_nat (used s)) 0 (data s) (data diff) ;;
    Ok (Build d (used diff) (capacity diff))
  else
    d <- Arr.copy_cells indet (Z.to_nat (used s)) 0 (data s) (data diff) ;;
    let diff := Build d (used diff) (capacity diff) in
    subtract_outer (Z.to_nat (used diff)) 0 diff otherIntSet.

(** One of the three filling loops of [unionWith]:
    [unionSet.data[counter] = src.data[i]; counter++;] *)
Fixpoint union_fill (n : nat) (i : Z) (src : IntSet) (st : list Z * Z)
    : result (list Z * Z) :=
  match n with
  | O => Ok st
  | S k =>
      let '(d, counter) := st in
      d' <- Arr.store d counter (Arr.load indet (data src) i) ;;
      union_fill k (i + 1) src (d', counter + 1)
  end.

(** IntSet::unionWith *)
Definition unionWith (s otherIntSet : IntSet) : result IntSet :=
  intersectSet <- ctor_default ;;
  tmp <- intersect s otherIntSet ;;
  intersectSet <- assign intersectSet tmp ;;
  diffSetA <- ctor_default ;;
  tmp <- subtract s otherIntSet ;;
  diffSetA <- assign diffSetA tmp ;;
  diffSetB <- ctor_default ;;
  tmp <- subtract otherIntSet s ;;
  diffSetB <- assign diffSetB tmp ;;
  unionSet <- ctor_default ;;
  let unionSet :=
    set_used unionSet (used intersectSet + used diffSetA + used diffSetB) in
  let counter := 0 in
  st <- union_fill (Z.to_nat (used intersectSet)) 0 intersectSet (data unionSet, counter) ;;
  st <- union_fill (Z.to_nat (used diffSetA)) 0 diffSetA st ;;
  st <- union_fill (Z.to_nat (used diffSetB)) 0 diffSetB st ;;
  Ok (Build (fst st) (used unionSet) (capacity unionSet)).

(** operator==(const IntSet&, const IntSet&) *)
Definition operator_eq (is1 is2 : IntSet) : bool :=
  let same := same0 in
  if isEmpty is1 && isEmpty is2 then true
  else if negb (size is1 =? size is2) then false
  else if size is1 =? size is2 then
    if isSubsetOf is1 is2 && isSubsetOf is2 is1 then true else same
  else same.

(** The members of a set: [data[0 .. used)]. *)
Definition members (s : IntSet) : list Z :=
  take (Z.to_nat (used s)) (data s).

(** The representation a constructed set has: as many cells as
    [capacity] says, and [used] of them in use. *)
Definition wf (s : IntSet) : Prop :=
  0 <= used s <= capacity s /\ capacity s = Arr.allocated (data s).
End Class.
End IntSet.

(** ** The sequence class (Assignment 3) *)

Module Sequence.

(** [size_type] is an unsigned machine integer ([std::size_t] of a 64-bit
    target): arithmetic on it wraps. *)
Definition SIZE_MOD : Z := 18446744073709551616.
Definition wrap (z : Z) : Z := z mod SIZE_MOD.

Inductive access : Type :=
  | LoadAt (index allocated : Z)
  | StoreAt (index allocated : Z).

(** An access is inside the array when its index is below the number of
    cells the array had at that moment. *)
Definition inside (a : access) : bool :=
  match a with
  | LoadAt i n | StoreAt i n => (0 <=? i) && (i <? n)
  end.

(** A run of accesses none of which leaves its array. *)
Definition all_inside (accesses : list access) : Prop :=
  Forall (fun a => inside a = true) accesses.

Section Class.
(** [value_type] comes from Sequence.h; the code only copies values. *)
Context {value_type : Type}.
Variable indet : value_type.

Record sequence : Type := Build {
  data : list value_type;
  used : Z;
  current_index : Z;
  capacity : Z;
  log : list access          (* instrumentation: latest access first *)
}.

Definition set_used (s : sequence) (u : Z) : sequence :=
  Build (data s) u (current_index s) (capacity s) (log s).
Definition set_current_index (s : sequence) (c : Z) : sequence :=
  Build (data s) (used s) c (capacity s) (log s).

(** [data[i]] read by a member function: logged. *)
Definition rd (s : sequence) (i : Z) : value_type * sequence :=
  (Arr.load indet (data s) i,
   Build (data s) (used s) (current_index s) (capacity s)
         (LoadAt i (Arr.allocated (data s)) :: log s)).

(** [data[i] = v] *)
Definition wr (s : sequence) (i : Z) (v : value_type) : result sequence :=
  d <- Arr.store (data s) i v ;;
  Ok (Build d (used s) (current_index s) (capacity s)
            (StoreAt i (Arr.allocated (data s)) :: log s)).

(** [data[i] = data[j]] *)
Definition move (s : sequence) (i j : Z) : result sequence :=
  let '(v, s1) := rd s j in wr s1 i v.

(** sequence::sequence(size_type initial_capacity) *)
Definition ctor (initial_capacity : Z) : result sequence :=
  let capacity := initial_capacity in
  let capacity := if capacity =? 0 then 1 else capacity in
  d <- Arr.new_array indet capacity ;;
  Ok (Build d 0 0 capacity []).

(** The copy loop of [resize]: [temp[i] = data[i]] for [i < used]. *)
Fixpoint resize_copy (n : nat) (i : Z) (s : sequence) (temp : list value_type)
    : result (list value_type * sequence) :=
  match n with
  | O => Ok (temp, s)
  | S k =>
      let '(v, s1) := rd s i in
      temp' <- Arr.store temp i v ;;
      resize_copy k (wrap (i + 1))
        (Build (data s1) (used s1) (current_index s1) (capacity s1)
               (StoreAt i (Arr.allocated temp) :: log s1))
        temp'
  end.

(** sequence::resize *)
Definition resize (s : sequence) (new_capacity : Z) : result sequence :=
  let new_capacity := if new_capacity <? used s then used s else new_capacity in
  let new_capacity := if new_capacity <=? 0 then 1 else new_capacity in
  temp <- Arr.new_array indet new_capacity ;;
  copied <- resize_copy (Z.to_nat (used s)) 0 s temp ;;
  let '(temp, s1) := copied in
  Ok (Build temp (used s1) (current_index s1) new_capacity (log s1)).

(** [size_type((1.25 * capacity) + 1)]: the product and the sum are
    exact in double precision for every capacity an array can have, and
    the conversion truncates. *)
Definition grown (capacity : Z) : Z := (5 * capacity) / 4 + 1.

(** sequence::is_item *)
Definition is_item (s : sequence) : bool :=
  if current_index s =? used s then false else true.

(** sequence::size *)
Definition size (s : sequence) : Z := used s.

(** sequence::current *)
Definition current (s : sequence) : result value_type :=
  if is_item s then Ok (Arr.load indet (data s) (current_index s))
  else Fault AssertionFailed.

(** sequence::start *)
Definition start (s : sequence) : result sequence :=
  Ok (set_current_index s 0).

(** sequence::advance *)
Definition advance (s : sequence) : result sequence :=
  if negb (is_item s) then Ok (set_current_index s (used s))
  else Ok (set_current_index s (wrap (current_index s + 1))).

(** [while (i > current_index) { data[i] = data[i - 1]; i--; }],
    [n] iterations left. *)
Fixpoint shift_up (n : nat) (i : Z) (s : sequence) : result sequence :=
  match n with
  | O => Ok s
  | S k => s1 <- move s i (wrap (i - 1)) ;; shift_up k (wrap (i - 1)) s1
  end.

(** sequence::insert *)
Definition insert (s : sequence) (entry : value_type) : result sequence :=
  s <- (if used s =? capacity s then resize s (grown (capacity s)) else Ok s) ;;
  let s := if current_index s =? used s then set_current_index s 0 else s in
  s <- shift_up (Z.to_nat (used s - current_index s)) (used s) s ;;
  let s := set_used s (wrap (used s + 1)) in
  wr s (current_index s) entry.

(** sequence::attach *)
Definition attach (s : sequence) (entry : value_type) : result sequence :=
  s <- (if used s =? capacity s then resize s (grown (capacity s)) else Ok s) ;;
  if current_index s =? used s then
    s <- wr s (current_index s) entry ;;
    Ok (set_used s (wrap (used s + 1)))
  else if current_index s =? wrap (used s - 1) then
    let s := set_current_index s (wrap (current_index s + 1)) in
    let s := set_used s (wrap (used s + 1)) in
    wr s (current_index s) entry
  else
    s <- shift_up (Z.to_nat (used s - current_index s)) (used s) s ;;
    let s := set_current_index s (wrap (current_index s + 1)) in
    let s := set_used s (wrap (used s + 1)) in
    wr s (current_index s) entry.

(** [for (i = current_index; i < used; i++) data[i] = data[i + 1];],
    [n] iterations left. *)
Fixpoint shift_down (n : nat) (i : Z) (s : sequence) : result sequence :=
  match n with
  | O => Ok s
  | S k => s1 <- move s i (wrap (i + 1)) ;; shift_down k (wrap (i + 1)) s1
  end.

(** sequence::remove_current *)
Definition remove_current (s : sequence) : result sequence :=
  if negb (is_item s) then Fault AssertionFailed
  else if current_index s =? wrap (used s - 1) then
    let s := set_used s (wrap (used s - 1)) in
    Ok (set_current_index s (used s))
  else
    s <- shift_down (Z.to_nat (used s - current_index s)) (current_index s) s ;;
    Ok (set_used s (wrap (used s - 1))).

(** [for (i = 0; i < source.used; i++) data[i] = source.data[i];] of the
    copy constructor and of [operator=], [n] iterations left.  The loads
    go to the array of [source], the stores to the array of [*this]; both
    are logged with the object that runs the loop. *)
Fixpoint copy_in (n : nat) (i : Z) (source : list value_type) (s : sequence)
    : result sequence :=
  match n with
  | O => Ok s
  | S k =>
      let v := Arr.load indet source i in
      s1 <- wr (Build (data s) (used s) (current_index s) (capacity s)
                      (LoadAt i (Arr.allocated source) :: log s)) i v ;;
      copy_in k (wrap (i + 1)) source s1
  end.

(** sequence::sequence(const sequence& source) *)
Definition copy_ctor (source : sequence) : result sequence :=
  d <- Arr.new_array indet (capacity source) ;;
  copy_in (Z.to_nat (used source)) 0 (data source)
    (Build d (used source) (current_index source) (capacity source) []).

(** sequence::operator=.  There is no test for self-assignment; with
    [source] the object itself no array is allocated and the loop copies
    each cell onto itself, which this definition gives as well. *)
Definition assign (this source : sequence) : result sequence :=
  let this := Build (data this) (used source) (current_index source)
                    (capacity this) (log this) in
  this <- (if capacity this <? capacity source then
             d <- Arr.new_array indet (capacity source) ;;
             Ok (Build d (used this) (current_index this) (capacity source)
                       (log this))
           else Ok this) ;;
  copy_in (Z.to_nat (used source)) 0 (data source) this.

(** The logical content: [data[0 .. used)]. *)
Definition items (s : sequence) : list value_type :=
  take (Z.to_nat (used s)) (data s).

(** The class invariant of Sequence.cpp, with the array as long as
    [capacity] says. *)
Definition wf (s : sequence) : Prop :=
  0 <= current_index s <= used s /\ used s <= capacity s /\
  capacity s = Arr.allocated (data s) /\ capacity s < SIZE_MOD.
End Class.
End Sequence.



(** ** Objects used in the scenarios *)

Module Samples.

(** [IntSet a(1); a.add(5);] *)
Definition set_5 : IntSet.IntSet := IntSet.Build [5] 1 1.

(** [IntSet a(1); a.add(1);] and [IntSet b(1); b.add(2);] *)
Definition set_1 : IntSet.IntSet := IntSet.Build [1] 1 1.
Definition set_2 : IntSet.IntSet := IntSet.Build [2] 1 1.

(** [IntSet s(2); s.add(1); s.add(2);] and
    [IntSet t(2); t.add(2); t.add(1);] *)
Definition set_12 : IntSet.IntSet := IntSet.Build [1; 2] 2 2.
Definition set_21 : IntSet.IntSet := IntSet.Build [2; 1] 2 2.

(** [IntSet e(1);] *)
Definition set_empty : IntSet.IntSet := IntSet.Build [0] 0 1.

(** The sequence [5, 6, 7] in an array of three cells, cursor on 6. *)
Definition seq_567 : Sequence.sequence :=
  Sequence.Build [5; 6; 7] 3 1 3 [].

(** [IntSet a(3); a.add(1); a.add(2); a.add(3);] and
    [IntSet b(3); b.add(3); b.add(2); b.add(1);] *)
Definition set_123 : IntSet.IntSet := IntSet.Build [1; 2; 3] 3 3.
Definition set_321 : IntSet.IntSet := IntSet.Build [3; 2; 1] 3 3.

(** An empty sequence in an array of one cell. *)
Definition seq_empty : Sequence.sequence :=
  Sequence.Build [0] 0 0 1 [].

(** The sequence [5, 6] filling an array of two cells, cursor on 5. *)
Definition seq_56 : Sequence.sequence :=
  Sequence.Build [5; 6] 2 0 2 [].

End Samples.

(** * Facts about arrays *)

Section ArrayFacts.
Context {T : Type}.
Variable indet : T.
Implicit Types (d src dst : list T).

Lemma load_lookup d i x :
  0 <= i -> d !! Z.to_nat i = Some x -> Arr.load indet d i = x.
Proof.
  intros Hi Hx. unfold Arr.load.
  destruct (Z.ltb_spec i 0); [lia|]. by rewrite Hx.
Qed.

Lemma store_inside d i v :
  0 <= i < Arr.allocated d ->
  Arr.store d i v = Ok (<[Z.to_nat i := v]> d).
Proof.
  unfold Arr.store, Arr.allocated. intros Hi.
  destruct (Z.leb_spec 0 i); [|lia].
  destruct (Nat.ltb_spec (Z.to_nat i) (length d)); [done|lia].
Qed.

Lemma store_outside d i v :
  Arr.allocated d <= i ->
  Arr.store d i v = Fault (StrayStore i (Arr.allocated d)).
Proof.
  unfold Arr.store, Arr.allocated. intros Hi.
  destruct (Nat.ltb_spec (Z.to_nat i) (length d)); [lia|].
  by rewrite andb_false_r.
Qed.

Lemma load_insert_ne d i j v :
  0 <= i -> 0 <= j -> i <> j ->
  Arr.load indet (<[Z.to_nat i := v]> d) j = Arr.load indet d j.
Proof.
  intros. unfold Arr.load. destruct (j <? 0); [done|].
  rewrite list_lookup_insert_ne; [done|lia].
Qed.

Lemma new_array_ok n :
  0 <= n -> Arr.new_array indet n = Ok (replicate (Z.to_nat n) indet).
Proof. intros. unfold Arr.new_array. by destruct (Z.ltb_spec n 0); [lia|]. Qed.

(** A copy loop that stays inside the target. *)
Lemma copy_cells_inside n : forall i src dst,
  0 <= i -> i + Z.of_nat n <= Arr.allocated dst ->
  exists dst', Arr.copy_cells indet n i src dst = Ok dst' /\
    length dst' = length dst /\
    forall k : nat,
      dst' !! k =
        if decide (i <= Z.of_nat k < i + Z.of_nat n)
        then Some (Arr.load indet src (Z.of_nat k))
        else dst !! k.
Proof.
  induction n as [|n IH]; intros i src dst Hi Hn.
  - exists dst. repeat split; try done. intros k. case_decide; [lia|done].
  - cbn [Arr.copy_cells]. rewrite store_inside by lia. cbn [bind].
    destruct (IH (i + 1) src (<[Z.to_nat i := Arr.load indet src i]> dst))
      as (dst' & Hrun & Hlen & Hcells).
    { lia. }
    { unfold Arr.allocated in *. rewrite length_insert. lia. }
    exists dst'. rewrite length_insert in Hlen. repeat split; try done.
    intros k. rewrite Hcells.
    destruct (decide (k = Z.to_nat i)) as [->|Hne].
    + rewrite Z2Nat.id by lia. repeat case_decide; try lia.
      rewrite list_lookup_insert_eq; [done|].
      unfold Arr.allocated in *. lia.
    + rewrite list_lookup_insert_ne by lia.
      repeat case_decide; try lia; done.
Qed.

(** A copy loop with more rounds than the target has cells left: the
    store just past the last cell is the one that goes astray. *)
Lemma copy_cells_overflow n : forall i src dst,
  0 <= i <= Arr.allocated dst -> Arr.allocated dst < i + Z.of_nat n ->
  Arr.copy_cells indet n i src dst =
    Fault (StrayStore (Arr.allocated dst) (Arr.allocated dst)).
Proof.
  induction n as [|n IH]; intros i src dst Hi Hn; [lia|].
  cbn [Arr.copy_cells].
  destruct (decide (i = Arr.allocated dst)) as [->|Hne].
  - by rewrite store_outside by lia.
  - rewrite store_inside by lia. cbn [bind].
    assert (Hsame : Arr.allocated (<[Z.to_nat i := Arr.load indet src i]> dst)
                    = Arr.allocated dst)
      by (unfold Arr.allocated; by rewrite length_insert).
    rewrite IH; rewrite Hsame; [done|lia|lia].
Qed.
End ArrayFacts.

(** * Properties of the sequence class *)

Section SequenceFacts.
Import Sequence.
Context {value_type : Type}.
Variable indet : value_type.
Implicit Types (s : @sequence value_type) (d : list value_type).

Lemma wrap_small z : 0 <= z < SIZE_MOD -> wrap z = z.
Proof. intros. unfold wrap. apply Z.mod_small. lia. Qed.

(** The loop of [remove_current]: cell [k] of the range it walks
    receives what cell [k + 1] held, the other cells stay. *)
Lemma shift_down_cells n : forall i s,
  0 <= i -> i + Z.of_nat n <= Arr.allocated (data s) ->
  Arr.allocated (data s) < SIZE_MOD ->
  exists s', shift_down indet n i s = Ok s' /\
    used s' = used s /\ current_index s' = current_index s /\
    capacity s' = capacity s /\ length (data s') = length (data s) /\
    forall k : nat,
      data s' !! k =
        if decide (i <= Z.of_nat k < i + Z.of_nat n)
        then Some (Arr.load indet (data s) (Z.of_nat k + 1))
        else data s !! k.
Proof.
  induction n as [|n IH]; intros i s Hi Hn Hmod.
  - exists s. repeat split; try done. intros k. case_decide; [lia|done].
  - cbn [shift_down]. unfold move, rd, wr. cbn [data used current_index capacity log].
    rewrite wrap_small by lia.
    rewrite store_inside by lia. cbn [bind].
    set (s1 := Build _ _ _ _ _).
    destruct (IH (i + 1) s1) as (s' & Hrun & Hu & Hc & Hcap & Hlen & Hcells).
    { lia. }
    { subst s1. cbn [data]. unfold Arr.allocated in *. rewrite length_insert. lia. }
    { subst s1. cbn [data]. unfold Arr.allocated in *. rewrite length_insert. lia. }
    exists s'. rewrite Hrun. subst s1. cbn [data used current_index capacity] in *.
    rewrite length_insert in Hlen.
    repeat split; try done.
    intros k. rewrite Hcells.
    destruct (decide (k = Z.to_nat i)) as [->|Hne].
    + rewrite Z2Nat.id by lia. repeat case_decide; try lia.
      rewrite list_lookup_insert_eq; [done|].
      unfold Arr.allocated in *. lia.
    + rewrite list_lookup_insert_ne by lia.
      repeat case_decide; try lia; try done.
      by rewrite load_insert_ne by lia.
Qed.

(** Closing a gap, cell by cell: a criterion for [delete]. *)
Lemma take_pred_delete d d' (u c : nat) :
  (c < u <= length d)%nat -> length d' = length d ->
  (forall k : nat, (k < u - 1)%nat ->
     d' !! k = if decide (k < c)%nat then d !! k else d !! S k) ->
  take (u - 1) d' = delete c (take u d).
Proof.
  intros Hc Hlen Hcells. apply list_eq. intros k.
  rewrite lookup_take, list_lookup_delete.
  case_decide as Hk.
  - rewrite Hcells by done.
    case_decide; rewrite lookup_take_lt; (done || lia).
  - case_decide; [lia|]. by rewrite lookup_take_ge by lia.
Qed.

(** C8.  For every sequence with a current item, [remove_current]
    removes the element at [current_index] and moves the following ones
    one place down, takes one off [used], and leaves the cursor on the
    index it vacated: the item now there is the current item, and there
    is no current item when that index is the new [used].  The scenario
    of the specification, [5,6,7] with the cursor on 6, is the instance
    [remove_current_closes_the_gap_567]. *)
Theorem remove_current_closes_the_gap s :
  wf s -> is_item s = true ->
  exists s', remove_current indet s = Ok s' /\
    items s' = delete (Z.to_nat (current_index s)) (items s) /\
    used s' = used s - 1 /\
    current_index s' = current_index s /\
    capacity s' = capacity s /\
    if current_index s' =? used s' then is_item s' = false
    else is_item s' = true /\
         exists x, items s' !! Z.to_nat (current_index s') = Some x /\
                   items s !! Z.to_nat (current_index s + 1) = Some x /\
                   current indet s' = Ok x.
Proof.
  intros (Hci & Hused & Hcap & Hmod) Hitem.
  unfold is_item in Hitem.
  destruct (Z.eqb_spec (current_index s) (used s)) as [|Hne]; [done|].
  unfold remove_current, is_item.
  destruct (Z.eqb_spec (current_index s) (used s)) as [|_]; [done|].
  cbn [negb]. rewrite wrap_small by lia.
  destruct (Z.eqb_spec (current_index s) (used s - 1)) as [Hlast|Hmid].
  - eexists. split; [done|].
    unfold items, set_used, set_current_index.
    cbn [data used current_index capacity].
    rewrite Z.eqb_refl.
    repeat split; try done; try lia.
    replace (Z.to_nat (used s - 1)) with (Z.to_nat (used s) - 1)%nat by lia.
    rewrite Hlast.
    replace (Z.to_nat (used s - 1)) with (Z.to_nat (used s) - 1)%nat by lia.
    apply take_pred_delete; [unfold Arr.allocated in *; lia|done|].
    intros k Hk. by case_decide; [|lia].
  - destruct (shift_down_cells (Z.to_nat (used s - current_index s))
                (current_index s) s)
      as (s' & Hrun & Hu & Hc & Hcp & Hlen & Hcells); [lia|lia|lia|].
    rewrite Hrun. cbn [bind]. eexists. split; [done|].
    unfold items, set_used, is_item, current.
    cbn [data used current_index capacity]. rewrite Hu, Hc, Hcp.
    rewrite wrap_small by lia.
    destruct (Z.eqb_spec (current_index s) (used s - 1)) as [|_]; [done|].
    assert (Hnext : is_Some (data s !! Z.to_nat (current_index s + 1))).
    { apply lookup_lt_is_Some. unfold Arr.allocated in *. lia. }
    destruct Hnext as [x Hx].
    assert (Hhere : data s' !! Z.to_nat (current_index s) = Some x).
    { rewrite Hcells. case_decide; [|lia].
      f_equal. apply load_lookup; [lia|].
      by replace (Z.to_nat (Z.of_nat (Z.to_nat (current_index s)) + 1))
        with (Z.to_nat (current_index s + 1)) by lia. }
    repeat split; try done.
    + replace (Z.to_nat (used s - 1)) with (Z.to_nat (used s) - 1)%nat by lia.
      apply take_pred_delete; [unfold Arr.allocated in *; lia|done|].
      intros k Hk. rewrite Hcells.
      repeat case_decide; try lia; try done.
      assert (Hk1 : is_Some (data s !! S k)).
      { apply lookup_lt_is_Some. unfold Arr.allocated in *. lia. }
      destruct Hk1 as [y Hy]. rewrite Hy. f_equal.
      apply load_lookup; [lia|].
      by replace (Z.to_nat (Z.of_nat k + 1)) with (S k) by lia.
    + exists x. repeat split.
      * rewrite lookup_take_lt by lia. done.
      * rewrite lookup_take_lt by lia. done.
      * unfold is_item. cbn [used current_index].
        destruct (Z.eqb_spec (current_index s) (used s - 1)) as [|_]; [done|].
        cbn [data]. f_equal. apply load_lookup; [lia|done].
Qed.

(** The accesses of the loop of [remove_current] go on top of the log,
    and the last round loads the cell after the last one it stores to. *)
Lemma shift_down_last_load n : forall i s s',
  0 <= i -> i + Z.of_nat (S n) <= Arr.allocated (data s) ->
  Arr.allocated (data s) < SIZE_MOD ->
  shift_down indet (S n) i s = Ok s' ->
  exists accesses, log s' = accesses ++ log s /\
    In (LoadAt (i + Z.of_nat (S n)) (Arr.allocated (data s))) accesses.
Proof.
  induction n as [|n IH]; intros i s s' Hi Hn Hmod.
  - cbn [shift_down]. unfold move, rd, wr. cbn [data used current_index capacity log].
    rewrite wrap_small by lia. rewrite store_inside by lia. cbn [bind].
    intros [= <-]. cbn [log].
    exists [StoreAt i (Arr.allocated (data s)); LoadAt (i + 1) (Arr.allocated (data s))].
    split; [done|]. right. by left.
  - remember (S n) as n1 eqn:Hn1. cbn [shift_down].
    unfold move, rd, wr. cbn [data used current_index capacity log].
    rewrite wrap_small by lia. rewrite store_inside by lia. cbn [bind].
    set (s1 := Build _ _ _ _ _). intros Hrun.
    assert (Hsame : Arr.allocated (data s1) = Arr.allocated (data s))
      by (subst s1; unfold Arr.allocated; cbn [data]; by rewrite length_insert).
    subst n1. apply IH in Hrun as (accesses & Hlog & Hin);
      [|lia|rewrite Hsame; lia|rewrite Hsame; lia].
    rewrite Hsame in Hin. subst s1. cbn [log] in Hlog.
    exists (accesses ++ [StoreAt i (Arr.allocated (data s));
                         LoadAt (i + 1) (Arr.allocated (data s))]).
    split; [by rewrite <- app_assoc|].
    apply in_or_app. left.
    by replace (i + Z.of_nat (S (S n))) with (i + 1 + Z.of_nat (S n)) by lia.
Qed.

(** C9 (the code departs from it).  When the array is full and the
    current item is not the last one, [remove_current] loads
    [data[capacity]], one cell past the array: the loop runs [i] up to
    [used - 1] and reads [data[i + 1]]. *)
Theorem remove_current_loads_past_a_full_array s :
  wf s -> used s = capacity s -> current_index s < used s - 1 ->
  exists s' accesses, remove_current indet s = Ok s' /\
    log s' = accesses ++ log s /\
    In (LoadAt (capacity s) (capacity s)) accesses /\
    inside (LoadAt (capacity s) (capacity s)) = false.
Proof.
  intros (Hci & Hused & Hcap & Hmod) Hfull Hmid.
  unfold remove_current, is_item.
  destruct (Z.eqb_spec (current_index s) (used s)) as [|_]; [lia|].
  cbn [negb]. rewrite wrap_small by lia.
  destruct (Z.eqb_spec (current_index s) (used s - 1)) as [|_]; [lia|].
  destruct (shift_down_cells (Z.to_nat (used s - current_index s))
              (current_index s) s)
    as (s' & Hrun & _); [lia|lia|lia|].
  rewrite Hrun. cbn [bind].
  destruct (Z.to_nat (used s - current_index s)) as [|n] eqn:Hn; [lia|].
  apply shift_down_last_load in Hrun as (accesses & Hlog & Hin); [|lia..].
  rewrite <- Hcap in Hin.
  replace (current_index s + Z.of_nat (S n)) with (capacity s) in Hin by lia.
  eexists _, accesses. split; [done|]. unfold set_used. cbn [log].
  repeat split; [done..|].
  cbn [inside]. by rewrite Z.ltb_irrefl, andb_false_r.
Qed.

(** C10.  [advance] on a sequence without a current item returns
    normally and hands back the very same sequence. *)
Theorem advance_without_item_is_identity s :
  is_item s = false -> advance s = Ok s.
Proof.
  intros Hitem. unfold advance. rewrite Hitem. cbn [negb].
  unfold is_item in Hitem.
  destruct (Z.eqb_spec (current_index s) (used s)) as [Heq|]; [|done].
  destruct s. unfold set_current_index. cbn in *. by rewrite Heq.
Qed.
End SequenceFacts.


Section SequenceScenarios.
Import Sequence.
Variable indet : Z.

(** C7.  On a sequence fresh from the constructor, whatever initial
    capacity it was given: [insert(10)], [insert(20)] give the order
    [20, 10] with current item 20, and [attach(30)] then gives
    [20, 30, 10] with current item 30. *)
Theorem insert_insert_attach_scenario (initial_capacity : Z) :
  0 <= initial_capacity < SIZE_MOD ->
  exists s0 s1 s2 s3,
    ctor indet initial_capacity = Ok s0 /\
    items s0 = [] /\ is_item s0 = false /\
    insert indet s0 10 = Ok s1 /\
    insert indet s1 20 = Ok s2 /\
    items s2 = [20; 10] /\ current indet s2 = Ok 20 /\
    attach indet s2 30 = Ok s3 /\
    items s3 = [20; 30; 10] /\ current indet s3 = Ok 30.
Proof.
  intros Hc.
  destruct (Z.to_nat initial_capacity) as [|[|[|m]]] eqn:Hn.
  - assert (initial_capacity = 0) as -> by lia.
    do 4 eexists. do 9 (split; [vm_compute; reflexivity|]).
    vm_compute; reflexivity.
  - assert (initial_capacity = 1) as -> by lia.
    do 4 eexists. do 9 (split; [vm_compute; reflexivity|]).
    vm_compute; reflexivity.
  - assert (initial_capacity = 2) as -> by lia.
    do 4 eexists. do 9 (split; [vm_compute; reflexivity|]).
    vm_compute; reflexivity.
  - (* room for all three items: no resize on the way *)
    assert (Hroomy : forall u, 0 <= u < 3 -> (u =? initial_capacity) = false)
      by (intros; lia).
    do 4 eexists. split.
    { unfold ctor, Arr.new_array.
      replace (initial_capacity =? 0) with false by lia.
      replace (initial_capacity <? 0) with false by lia.
      rewrite Hn. vm_compute. reflexivity. }
    split; [reflexivity|]. split; [reflexivity|].
    split.
    { unfold insert. cbn [used capacity]. rewrite Hroomy by lia.
      vm_compute. reflexivity. }
    split.
    { unfold insert. cbn [used capacity]. rewrite Hroomy by lia.
      vm_compute. reflexivity. }
    split; [reflexivity|]. split; [reflexivity|].
    split.
    { unfold attach. cbn [used capacity]. rewrite Hroomy by lia.
      vm_compute. reflexivity. }
    split; reflexivity.
Qed.
End SequenceScenarios.


(** * Properties of the IntSet class *)

Section IntSetFacts.
Import IntSet.
Variables (DEFAULT_CAPACITY indet : Z) (found0 : bool).
Implicit Types (s : IntSet) (d : list Z).

Lemma take_snoc_insert d d' (u : nat) v :
  (u < length d')%nat -> (u <= length d)%nat ->
  (forall k : nat, (k < u)%nat -> d' !! k = d !! k) ->
  take (S u) (<[u := v]> d') = take u d ++ [v].
Proof.
  intros Hu Hd Hsame. apply list_eq. intros k.
  rewrite lookup_take, lookup_app, lookup_take.
  destruct (decide (k = u)) as [->|Hne].
  - repeat case_decide; try lia.
    rewrite list_lookup_insert_eq by done.
    rewrite length_take. by replace (u - u `min` length d)%nat with 0%nat by lia.
  - rewrite list_lookup_insert_ne by done.
    repeat case_decide; try lia.
    + rewrite Hsame by lia.
      destruct (d !! k) eqn:E; [done|].
      apply lookup_ge_None in E. lia.
    + rewrite length_take.
      destruct (k - u `min` length d)%nat as [|[|j]] eqn:E; try done. lia.
Qed.

(** What [add] does to a set that is not empty, member or not: the
    value goes into [data[used]], after a resize when the array is
    full. *)
Lemma add_on_nonempty s anInt :
  wf s -> 0 < used s ->
  exists s', add DEFAULT_CAPACITY indet found0 s anInt = Ok (s', true) /\
    members s' = members s ++ [anInt] /\ used s' = used s + 1 /\ wf s'.
Proof.
  intros ((Hu0 & Hu) & Hcap) Hpos. unfold add, isEmpty, size.
  destruct (Z.eqb_spec (used s) 0) as [|_]; [lia|].
  destruct (Z.leb_spec (capacity s) (used s)) as [Hfull|Hroom].
  - unfold resize.
    set (q := Z.quot (3 * capacity s) 2 + 1).
    assert (Hq : used s < q).
    { subst q. rewrite Z.quot_div_nonneg by lia.
      assert (capacity s <= 3 * capacity s / 2)
        by (apply Z.div_le_lower_bound; lia).
      lia. }
    set (nc := if _ <? DEFAULT_CAPACITY then _ else _).
    assert (Hnc : used s < nc).
    { subst nc. destruct (Z.ltb_spec q (used s)); [lia|].
      destruct (Z.ltb_spec q DEFAULT_CAPACITY); lia. }
    rewrite new_array_ok by lia. cbn [bind].
    destruct (copy_cells_inside indet (Z.to_nat (used s)) 0 (data s)
                (replicate (Z.to_nat nc) indet))
      as (dst & Hrun & Hlen & Hcells).
    { lia. }
    { unfold Arr.allocated. rewrite length_replicate. lia. }
    rewrite Hrun. cbn [bind data used capacity].
    rewrite length_replicate in Hlen.
    rewrite store_inside by (unfold Arr.allocated; lia). cbn [bind].
    eexists. split; [done|]. unfold members, wf, Arr.allocated in *.
    cbn [data used capacity]. rewrite length_insert.
    repeat split; try lia.
    replace (Z.to_nat (used s + 1)) with (S (Z.to_nat (used s))) by lia.
    apply take_snoc_insert; [lia|lia|].
    intros k Hk. rewrite Hcells. case_decide; [|lia].
    assert (Hin : is_Some (data s !! k)) by (apply lookup_lt_is_Some; lia).
    destruct Hin as [x Hx]. rewrite Hx. f_equal.
    apply load_lookup; [lia|]. by rewrite Nat2Z.id.
  - cbn [bind].
    rewrite store_inside by (unfold Arr.allocated in *; lia). cbn [bind].
    eexists. split; [done|]. unfold members, wf, Arr.allocated in *.
    cbn [data used capacity]. rewrite length_insert.
    repeat split; try lia.
    replace (Z.to_nat (used s + 1)) with (S (Z.to_nat (used s))) by lia.
    apply take_snoc_insert; [lia|lia|done].
Qed.

(** The scan of [contains] answers [true] once [found] is. *)
Lemma contains_scan_found n i s anInt :
  contains_scan indet n i true s anInt = true.
Proof. by destruct n. Qed.

(** It reaches every value that sits in the cells still to scan,
    whatever [found] started out as. *)
Lemma contains_scan_reaches n : forall i found s anInt (k : nat),
  0 <= i -> i <= Z.of_nat k < i + Z.of_nat n ->
  data s !! k = Some anInt ->
  contains_scan indet n i found s anInt = true.
Proof.
  induction n as [|n IH]; intros i found s anInt k Hi Hk Hcell; [lia|].
  cbn [contains_scan]. destruct found; [done|].
  destruct (decide (Z.of_nat k = i)) as [<-|Hne].
  - rewrite (load_lookup indet (data s) (Z.of_nat k) anInt); [|lia|by rewrite Nat2Z.id].
    rewrite Z.eqb_refl. apply contains_scan_found.
  - apply (IH _ _ _ _ k); [lia|lia|done].
Qed.

Lemma contains_member s anInt :
  In anInt (members s) -> contains indet found0 s anInt = true.
Proof.
  intros Hin. apply list_elem_of_In, list_elem_of_lookup in Hin as [k Hk].
  unfold members in Hk. apply lookup_take_Some in Hk as [Hcell Hlt].
  unfold contains, isEmpty, size.
  destruct (Z.eqb_spec (used s) 0) as [|_]; [lia|].
  apply (contains_scan_reaches _ _ _ _ _ k); [lia|lia|done].
Qed.

(** The branch of [add] for the empty set: [data[0]] is written without
    a look at [capacity]. *)
Lemma add_on_empty s anInt :
  wf s -> used s = 0 -> 1 <= capacity s ->
  exists s', add DEFAULT_CAPACITY indet found0 s anInt = Ok (s', true) /\
    members s' = members s ++ [anInt] /\ used s' = used s + 1 /\ wf s'.
Proof.
  intros (_ & Hcap) Hempty Hroom. unfold add, isEmpty, size.
  rewrite Hempty. cbn [Z.eqb].
  rewrite store_inside by (unfold Arr.allocated in *; lia). cbn [bind].
  eexists. split; [done|]. unfold members, wf, Arr.allocated in *.
  cbn [data used capacity]. rewrite length_insert, Hempty.
  repeat split; try lia.
  change (Z.to_nat (0 + 1)) with 1%nat. change (Z.to_nat 0) with 0%nat.
  apply (take_snoc_insert (data s)); [lia|lia|done].
Qed.

(** The part of C1 the code keeps: a value that is not yet a member goes
    to [data[used]], [size()] goes up by one, [add] answers [true] and
    [contains] finds the value afterwards. *)
Lemma add_of_a_new_value s v :
  wf s -> 1 <= capacity s -> ~ In v (members s) ->
  exists s', add DEFAULT_CAPACITY indet found0 s v = Ok (s', true) /\
    members s' = members s ++ [v] /\ size s' = size s + 1 /\
    contains indet found0 s' v = true.
Proof.
  intros Hwf Hroom _.
  assert (Hcases : used s = 0 \/ 0 < used s) by (destruct Hwf; lia).
  destruct Hcases as [Hempty|Hpos];
    [destruct (add_on_empty s v Hwf Hempty Hroom) as (s' & Hrun & Hmem & Hused & _)
    |destruct (add_on_nonempty s v Hwf Hpos) as (s' & Hrun & Hmem & Hused & _)];
    (exists s'; repeat split; [done..|];
     apply contains_member; rewrite Hmem; apply in_or_app; right; by left).
Qed.

(** C1 (the code departs from it).  Adding a value that is already a
    member: [add] answers [true], but it stores the value once more at
    [data[used]] and [size()] goes up by one, where the claim has size and
    contents unchanged. *)
Theorem add_of_a_member_appends_it_again s v :
  wf s -> In v (members s) ->
  exists s', add DEFAULT_CAPACITY indet found0 s v = Ok (s', true) /\
    size s' = size s + 1 /\ members s' = members s ++ [v].
Proof.
  intros Hwf Hin.
  assert (0 < used s).
  { unfold members in Hin. destruct (Z.to_nat (used s)) eqn:E; [|lia].
    rewrite take_0 in Hin. destruct Hin. }
  destruct (add_on_nonempty s v Hwf) as (s' & Hrun & Hmem & Hused & _); [done|].
  exists s'. by repeat split.
Qed.

(** C2 (the code departs from it).  [IntSet a(1); a.add(5); a.add(5);]
    leaves 5 stored twice in [data[0 .. used)]. *)
Theorem add_twice_stores_a_duplicate :
  exists s0 s1 s2,
    ctor DEFAULT_CAPACITY indet 1 = Ok s0 /\
    add DEFAULT_CAPACITY indet found0 s0 5 = Ok (s1, true) /\
    add DEFAULT_CAPACITY indet found0 s1 5 = Ok (s2, true) /\
    members s2 = [5; 5] /\ ~ NoDup (members s2).
Proof.
  destruct (add_on_nonempty Samples.set_5 5) as (s2 & Hrun & Hmem & _).
  { unfold wf. vm_compute. intuition congruence. }
  { done. }
  exists (Build [indet] 0 1), Samples.set_5, s2.
  split; [done|]. split; [done|]. split; [done|].
  rewrite Hmem. split; [done|].
  intros Hnd. vm_compute in Hnd.
  inversion Hnd as [|x l Hnotin _]; subst. apply Hnotin. by left.
Qed.

(** The budget of [subtract_outer] is never used up: [remove] does not
    raise [used], and no array operation reports [OutOfFuel]. *)
Lemma store_in_budget (d : list Z) i v : Arr.store d i v <> Fault OutOfFuel.
Proof. unfold Arr.store. by destruct (_ && _). Qed.

Lemma copy_cells_in_budget n : forall i (src dst : list Z),
  Arr.copy_cells indet n i src dst <> Fault OutOfFuel.
Proof.
  induction n as [|n IH]; intros i src dst; cbn [Arr.copy_cells]; [done|].
  destruct (Arr.store dst i _) as [d'|f] eqn:E; cbn [bind]; [apply IH|].
  intros [= ->]. by apply store_in_budget in E.
Qed.

Lemma remove_shift_in_budget n : forall j d,
  remove_shift indet n j d <> Fault OutOfFuel.
Proof.
  induction n as [|n IH]; intros j d; cbn [remove_shift]; [done|].
  destruct (Arr.store d j _) as [d'|f] eqn:E; cbn [bind]; [apply IH|].
  intros [= ->]. by apply store_in_budget in E.
Qed.

Lemma remove_search_steps n : forall i s anInt,
  match remove_search indet n i s anInt with
  | Ok (s', _) => used s' <= used s
  | Fault f => f <> OutOfFuel
  end.
Proof.
  induction n as [|n IH]; intros i s anInt; cbn [remove_search]; [done|].
  destruct (_ =? anInt); [|apply IH].
  destruct (remove_shift _ _ _ _) as [d|f] eqn:E; cbn [bind].
  - destruct (Arr.copy_cells _ _ _ _ _) as [d'|f] eqn:E'; cbn [bind used]; [lia|].
    intros ->. by apply copy_cells_in_budget in E'.
  - intros ->. by apply remove_shift_in_budget in E.
Qed.

Lemma remove_steps s anInt :
  match remove indet found0 s anInt with
  | Ok (s', _) => used s' <= used s
  | Fault f => f <> OutOfFuel
  end.
Proof. unfold remove. destruct (_ || _); [done|apply remove_search_steps]. Qed.

Lemma subtract_inner_steps n : forall j i diff otherIntSet,
  match subtract_inner indet found0 n j i diff otherIntSet with
  | Ok diff' => used diff' <= used diff
  | Fault f => f <> OutOfFuel
  end.
Proof.
  induction n as [|n IH]; intros j i diff otherIntSet; cbn [subtract_inner]; [done|].
  destruct (_ =? _); [|apply IH].
  pose proof (remove_steps diff (Arr.load indet (data diff) i)) as Hrem.
  destruct (remove _ _ _ _) as [[diff1 b]|f]; cbn [bind fst]; [|done].
  specialize (IH (j + 1) i diff1 otherIntSet).
  destruct (subtract_inner _ _ _ _ _ _ _); [lia|done].
Qed.

Lemma subtract_outer_in_budget budget : forall i diff otherIntSet,
  used diff - i <= Z.of_nat budget ->
  subtract_outer indet found0 budget i diff otherIntSet <> Fault OutOfFuel.
Proof.
  induction budget as [|budget IH]; intros i diff otherIntSet Hbudget;
    cbn [subtract_outer]; destruct (Z.ltb_spec i (used diff)); try done; [lia|].
  pose proof (subtract_inner_steps (Z.to_nat (used otherIntSet)) 0 i diff otherIntSet)
    as Hin.
  destruct (subtract_inner _ _ _ _ _ _ _) as [diff'|f]; cbn [bind].
  - apply IH. lia.
  - by intros [= ->].
Qed.

Lemma subtract_in_budget s otherIntSet :
  subtract DEFAULT_CAPACITY indet found0 s otherIntSet <> Fault OutOfFuel.
Proof.
  unfold subtract, ctor_default, ctor, Arr.new_array. cbv zeta.
  destruct (_ <? 0); cbn [bind]; [done|].
  unfold set_used. cbn [data used capacity].
  destruct (Arr.copy_cells _ _ _ _ _) as [d|f] eqn:E.
  - destruct (isEmpty otherIntSet); cbn [bind]; [done|].
    apply subtract_outer_in_budget. cbn [used]. lia.
  - destruct (isEmpty otherIntSet); cbn [bind];
      intros [= ->]; by apply copy_cells_in_budget in E.
Qed.

Lemma ctor_default_ok :
  0 <= DEFAULT_CAPACITY ->
  ctor_default DEFAULT_CAPACITY indet =
    Ok (Build (replicate (Z.to_nat DEFAULT_CAPACITY) indet) 0 DEFAULT_CAPACITY).
Proof.
  intros. unfold ctor_default, ctor.
  destruct (DEFAULT_CAPACITY <? 1); by rewrite new_array_ok.
Qed.

Lemma ctor_default_negative :
  DEFAULT_CAPACITY < 0 ->
  ctor_default DEFAULT_CAPACITY indet = Fault (BadArrayLength DEFAULT_CAPACITY).
Proof.
  intros. unfold ctor_default, ctor, Arr.new_array.
  destruct (DEFAULT_CAPACITY <? 1);
    by destruct (Z.ltb_spec DEFAULT_CAPACITY 0); [|lia].
Qed.

(** Evaluation of a run in which the only unknown left is how many
    cells beyond the first [k] a default-constructed array has. *)
Ltac unroll_cells k :=
  let m := fresh "m" in
  replace (Z.to_nat DEFAULT_CAPACITY)
    with (k + Z.to_nat (DEFAULT_CAPACITY - Z.of_nat k))%nat by lia;
  repeat match goal with
  | |- context [Z.to_nat (DEFAULT_CAPACITY - ?j)] =>
      lazymatch j with
      | Z.of_nat k => fail
      | _ => replace (Z.to_nat (DEFAULT_CAPACITY - j))
               with (Z.to_nat (Z.of_nat k - j)
                     + Z.to_nat (DEFAULT_CAPACITY - Z.of_nat k))%nat by lia
      end
  end;
  generalize (Z.to_nat (DEFAULT_CAPACITY - Z.of_nat k)); intros m;
  destruct found0; vm_compute; reflexivity.

Lemma intersect_12_21 :
  2 <= DEFAULT_CAPACITY ->
  intersect DEFAULT_CAPACITY indet Samples.set_12 Samples.set_21 =
    Ok (Build (1 :: 2 :: replicate (Z.to_nat (DEFAULT_CAPACITY - 2)) indet)
              2 DEFAULT_CAPACITY).
Proof.
  intros. unfold intersect. rewrite ctor_default_ok by lia. cbn [bind].
  unroll_cells 2%nat.
Qed.

Lemma subtract_12_21 :
  2 <= DEFAULT_CAPACITY ->
  subtract DEFAULT_CAPACITY indet found0 Samples.set_12 Samples.set_21 =
    Ok (Build (2 :: 2 :: replicate (Z.to_nat (DEFAULT_CAPACITY - 2)) indet)
              1 DEFAULT_CAPACITY).
Proof.
  intros. unfold subtract. rewrite ctor_default_ok by lia. cbn [bind].
  unroll_cells 2%nat.
Qed.

Lemma subtract_21_12 :
  2 <= DEFAULT_CAPACITY ->
  subtract DEFAULT_CAPACITY indet found0 Samples.set_21 Samples.set_12 =
    Ok (Build (1 :: 1 :: replicate (Z.to_nat (DEFAULT_CAPACITY - 2)) indet)
              1 DEFAULT_CAPACITY).
Proof.
  intros. unfold subtract. rewrite ctor_default_ok by lia. cbn [bind].
  unroll_cells 2%nat.
Qed.

(** C3 (the code departs from it).  [{1,2}.subtract({2,1})]: the two
    sets have the same members, so the difference is empty.  The code
    either stores past the array of [diff] (a default capacity below 2)
    or returns a set of size 1 that still holds 2. *)
Theorem subtract_of_equal_sets_keeps_a_member :
  (diff <- subtract DEFAULT_CAPACITY indet found0 Samples.set_12 Samples.set_21 ;;
   Ok (members diff, size diff)) =
    if DEFAULT_CAPACITY <? 0 then Fault (BadArrayLength DEFAULT_CAPACITY)
    else if DEFAULT_CAPACITY <? 2
    then Fault (StrayStore DEFAULT_CAPACITY DEFAULT_CAPACITY)
    else Ok ([2], 1).
Proof.
  destruct (Z.ltb_spec DEFAULT_CAPACITY 0).
  { unfold subtract. by rewrite ctor_default_negative. }
  destruct (Z.ltb_spec DEFAULT_CAPACITY 2); [|by rewrite subtract_12_21].
  assert (DEFAULT_CAPACITY = 0 \/ DEFAULT_CAPACITY = 1) as [-> | ->] by lia;
    destruct found0; vm_compute; reflexivity.
Qed.

Lemma unionWith_12_21 :
  4 <= DEFAULT_CAPACITY ->
  unionWith DEFAULT_CAPACITY indet found0 Samples.set_12 Samples.set_21 =
    Ok (Build (1 :: 2 :: 2 :: 1 :: replicate (Z.to_nat (DEFAULT_CAPACITY - 4)) indet)
              4 DEFAULT_CAPACITY).
Proof.
  intros. unfold unionWith.
  rewrite ctor_default_ok, intersect_12_21, subtract_12_21, subtract_21_12 by lia.
  cbn [bind]. unfold assign. cbn [bind capacity used data].
  rewrite new_array_ok by lia.
  unroll_cells 4%nat.
Qed.

(** C4 (the code departs from it).  [{1,2}.unionWith({2,1})]: the union
    is [{1,2}], each value once.  The code either stores past an array (a
    default capacity below 4) or returns the four values [1, 2, 2, 1]. *)
Theorem unionWith_of_equal_sets_repeats_members :
  (unionSet <- unionWith DEFAULT_CAPACITY indet found0 Samples.set_12 Samples.set_21 ;;
   Ok (members unionSet, size unionSet)) =
    if DEFAULT_CAPACITY <? 0 then Fault (BadArrayLength DEFAULT_CAPACITY)
    else if DEFAULT_CAPACITY <? 4
    then Fault (StrayStore DEFAULT_CAPACITY DEFAULT_CAPACITY)
    else Ok ([1; 2; 2; 1], 4).
Proof.
  destruct (Z.ltb_spec DEFAULT_CAPACITY 0).
  { unfold unionWith. by rewrite ctor_default_negative. }
  destruct (Z.ltb_spec DEFAULT_CAPACITY 4); [|by rewrite unionWith_12_21].
  assert (DEFAULT_CAPACITY = 0 \/ DEFAULT_CAPACITY = 1 \/
          DEFAULT_CAPACITY = 2 \/ DEFAULT_CAPACITY = 3)
    as [-> | [-> | [-> | ->]]] by lia;
    destruct found0; vm_compute; reflexivity.
Qed.

(** [intersect] writes into a default-constructed array as well: two
    common members do not fit when that array has fewer than two cells. *)
Lemma intersect_stores_past_the_array :
  0 <= DEFAULT_CAPACITY < 2 ->
  intersect DEFAULT_CAPACITY indet Samples.set_12 Samples.set_21 =
    Fault (StrayStore DEFAULT_CAPACITY DEFAULT_CAPACITY).
Proof.
  intros. assert (DEFAULT_CAPACITY = 0 \/ DEFAULT_CAPACITY = 1) as [-> | ->] by lia;
    vm_compute; reflexivity.
Qed.

(** C5 (the code departs from it).  [subtract] and [unionWith] fill the
    array of a default-constructed set without ever growing it: when the
    receiver has more members than [DEFAULT_CAPACITY] and the argument is
    empty, the store at index [DEFAULT_CAPACITY] lands past the
    [DEFAULT_CAPACITY] cells of that array. *)
Theorem set_operations_store_past_the_array s otherIntSet :
  0 <= DEFAULT_CAPACITY < used s -> used otherIntSet = 0 ->
  subtract DEFAULT_CAPACITY indet found0 s otherIntSet =
    Fault (StrayStore DEFAULT_CAPACITY DEFAULT_CAPACITY) /\
  unionWith DEFAULT_CAPACITY indet found0 s otherIntSet =
    Fault (StrayStore DEFAULT_CAPACITY DEFAULT_CAPACITY).
Proof.
  intros HD Hempty.
  assert (Hcells : Arr.allocated (replicate (Z.to_nat DEFAULT_CAPACITY) indet)
                   = DEFAULT_CAPACITY)
    by (unfold Arr.allocated; rewrite length_replicate; lia).
  assert (Hsub : subtract DEFAULT_CAPACITY indet found0 s otherIntSet =
                 Fault (StrayStore DEFAULT_CAPACITY DEFAULT_CAPACITY)).
  { unfold subtract. rewrite ctor_default_ok by lia. cbn [bind].
    unfold isEmpty, size. rewrite Hempty. cbn [Z.eqb set_used data].
    rewrite copy_cells_overflow; rewrite Hcells; [done|lia|lia]. }
  split; [done|].
  unfold unionWith, intersect. rewrite ctor_default_ok by lia. cbn [bind].
  unfold isEmpty, size. rewrite Hempty. cbn [Z.eqb bind].
  unfold assign, set_used. cbn [capacity used data Z.to_nat Arr.copy_cells].
  rewrite new_array_ok by lia. cbn [bind]. by rewrite Hsub.
Qed.
End IntSetFacts.

Section IntSetEquality.
Import IntSet.
Variable indet : Z.
Variables isSubset0 same0 : bool.

(** C6 (the code departs from it).  [operator==] on [{1}] and [{2}],
    with [contains] scanning as intended ([found] starting out false):
    the sizes agree and neither set is a subset of the other, so no branch
    assigns [same], and the function returns whatever [same] held. *)
Theorem operator_eq_returns_the_unset_local :
  size Samples.set_1 = size Samples.set_2 /\
  isSubsetOf indet false isSubset0 Samples.set_1 Samples.set_2 = false /\
  operator_eq indet false isSubset0 same0 Samples.set_1 Samples.set_2 = same0.
Proof. by destruct same0. Qed.
End IntSetEquality.

(** * The objects of the scenarios, built by the member functions *)

Section Reachable.
Variables (DEFAULT_CAPACITY indet : Z) (found0 : bool).

Example set_5_is_built :
  (s <- IntSet.ctor DEFAULT_CAPACITY indet 1 ;;
   IntSet.add DEFAULT_CAPACITY indet found0 s 5) = Ok (Samples.set_5, true).
Proof. reflexivity. Qed.

Example set_1_and_set_2_are_built :
  (s <- IntSet.ctor DEFAULT_CAPACITY indet 1 ;;
   IntSet.add DEFAULT_CAPACITY indet found0 s 1) = Ok (Samples.set_1, true) /\
  (s <- IntSet.ctor DEFAULT_CAPACITY indet 1 ;;
   IntSet.add DEFAULT_CAPACITY indet found0 s 2) = Ok (Samples.set_2, true).
Proof. split; reflexivity. Qed.

Example set_empty_is_built :
  IntSet.ctor DEFAULT_CAPACITY 0 1 = Ok Samples.set_empty.
Proof. reflexivity. Qed.

Example set_12_is_built :
  (s <- IntSet.ctor DEFAULT_CAPACITY indet 2 ;;
   r <- IntSet.add DEFAULT_CAPACITY indet found0 s 1 ;;
   IntSet.add DEFAULT_CAPACITY indet found0 (fst r) 2) = Ok (Samples.set_12, true).
Proof. reflexivity. Qed.

Example set_21_is_built :
  (s <- IntSet.ctor DEFAULT_CAPACITY indet 2 ;;
   r <- IntSet.add DEFAULT_CAPACITY indet found0 s 2 ;;
   IntSet.add DEFAULT_CAPACITY indet found0 (fst r) 1) = Ok (Samples.set_21, true).
Proof. reflexivity. Qed.

Example seq_56_is_built :
  exists s,
    (s <- Sequence.ctor indet 2 ;; s <- Sequence.insert indet s 6 ;;
     Sequence.insert indet s 5) = Ok s /\
    Sequence.data s = Sequence.data Samples.seq_56 /\
    Sequence.used s = 2 /\ Sequence.current_index s = 0 /\
    Sequence.capacity s = 2.
Proof. eexists. split; [vm_compute; reflexivity|done]. Qed.

Example seq_567_is_built :
  exists s,
    (s <- Sequence.ctor indet 1 ;; s <- Sequence.insert indet s 7 ;;
     s <- Sequence.insert indet s 6 ;; s <- Sequence.insert indet s 5 ;;
     Sequence.advance s) = Ok s /\
    Sequence.data s = Sequence.data Samples.seq_567 /\
    Sequence.used s = 3 /\ Sequence.current_index s = 1 /\
    Sequence.capacity s = 3.
Proof. eexists. split; [vm_compute; reflexivity|done]. Qed.

(** The run behind C9, access by access (latest first). *)
Example remove_current_on_seq_56 :
  Sequence.remove_current indet Samples.seq_56 =
    Ok (Sequence.Build [6; indet] 1 0 2
          [Sequence.StoreAt 1 2; Sequence.LoadAt 2 2;
           Sequence.StoreAt 0 2; Sequence.LoadAt 1 2]).
Proof. reflexivity. Qed.
End Reachable.

(** * The theorems at the objects of the scenarios *)

Lemma add_of_a_member_appends_it_again_at_5 :
  IntSet.wf Samples.set_5 /\ In 5 (IntSet.members Samples.set_5) /\
  exists s', IntSet.add 1 0 false Samples.set_5 5 = Ok (s', true) /\
    IntSet.size s' = IntSet.size Samples.set_5 + 1 /\
    IntSet.members s' = IntSet.members Samples.set_5 ++ [5].
Proof.
  assert (Hwf : IntSet.wf Samples.set_5) by (unfold IntSet.wf, Arr.allocated; cbn; lia).
  assert (Hin : In 5 (IntSet.members Samples.set_5)) by (left; reflexivity).
  split; [exact Hwf|]. split; [exact Hin|].
  exact (add_of_a_member_appends_it_again 1 0 false Samples.set_5 5 Hwf Hin).
Defined.

Lemma set_operations_store_past_the_array_at_12 :
  0 <= 1 < IntSet.used Samples.set_12 /\
  IntSet.used Samples.set_empty = 0 /\
  IntSet.subtract 1 0 false Samples.set_12 Samples.set_empty =
    Fault (StrayStore 1 1) /\
  IntSet.unionWith 1 0 false Samples.set_12 Samples.set_empty =
    Fault (StrayStore 1 1).
Proof.
  assert (Hmore : 0 <= 1 < IntSet.used Samples.set_12) by (cbn; lia).
  split; [exact Hmore|]. split; [reflexivity|].
  exact (set_operations_store_past_the_array 1 0 false
           Samples.set_12 Samples.set_empty Hmore eq_refl).
Defined.

Lemma insert_insert_attach_scenario_from_capacity_1 :
  0 <= 1 < Sequence.SIZE_MOD /\
  exists s0 s1 s2 s3,
    Sequence.ctor 0 1 = Ok s0 /\
    Sequence.items s0 = [] /\ Sequence.is_item s0 = false /\
    Sequence.insert 0 s0 10 = Ok s1 /\
    Sequence.insert 0 s1 20 = Ok s2 /\
    Sequence.items s2 = [20; 10] /\ Sequence.current 0 s2 = Ok 20 /\
    Sequence.attach 0 s2 30 = Ok s3 /\
    Sequence.items s3 = [20; 30; 10] /\ Sequence.current 0 s3 = Ok 30.
Proof.
  assert (Hrange : 0 <= 1 < Sequence.SIZE_MOD) by (unfold Sequence.SIZE_MOD; lia).
  split; [exact Hrange|].
  exact (insert_insert_attach_scenario 0 1 Hrange).
Defined.

Lemma remove_current_closes_the_gap_567 :
  Sequence.wf Samples.seq_567 /\ Sequence.is_item Samples.seq_567 = true /\
  exists s', Sequence.remove_current 0 Samples.seq_567 = Ok s' /\
    Sequence.items s' = [5; 7] /\ Sequence.current 0 s' = Ok 7.
Proof.
  assert (Hwf : Sequence.wf Samples.seq_567)
    by (unfold Sequence.wf, Sequence.SIZE_MOD, Arr.allocated; cbn; lia).
  split; [exact Hwf|]. split; [reflexivity|].
  destruct (remove_current_closes_the_gap 0 Samples.seq_567 Hwf eq_refl)
    as (s' & Hrun & Hitems & Hused & Hcur & _ & Hitem).
  exists s'. split; [exact Hrun|]. split; [exact Hitems|].
  rewrite Hcur, Hused in Hitem.
  destruct Hitem as (_ & x & _ & Hx & Hcurrent).
  injection Hx as <-. exact Hcurrent.
Defined.

Lemma remove_current_loads_past_a_full_array_56 :
  Sequence.wf Samples.seq_56 /\
  Sequence.used Samples.seq_56 = Sequence.capacity Samples.seq_56 /\
  Sequence.current_index Samples.seq_56 < Sequence.used Samples.seq_56 - 1 /\
  exists s' accesses, Sequence.remove_current 0 Samples.seq_56 = Ok s' /\
    Sequence.log s' = accesses ++ Sequence.log Samples.seq_56 /\
    In (Sequence.LoadAt 2 2) accesses /\
    Sequence.inside (Sequence.LoadAt 2 2) = false.
Proof.
  assert (Hwf : Sequence.wf Samples.seq_56)
    by (unfold Sequence.wf, Sequence.SIZE_MOD, Arr.allocated; cbn; lia).
  assert (Hmid : Sequence.current_index Samples.seq_56
                 < Sequence.used Samples.seq_56 - 1) by (cbn; lia).
  split; [exact Hwf|]. split; [reflexivity|]. split; [exact Hmid|].
  exact (remove_current_loads_past_a_full_array 0 Samples.seq_56 Hwf eq_refl Hmid).
Defined.

Lemma advance_without_item_is_identity_on_empty :
  Sequence.is_item Samples.seq_empty = false /\
  Sequence.advance Samples.seq_empty = Ok Samples.seq_empty.
Proof.
  split; [reflexivity|].
  exact (advance_without_item_is_identity Samples.seq_empty eq_refl).
Defined.

(** * More about the sequence class: the other member functions *)

Section SequenceOperations.
Import Sequence.
Context {value_type : Type}.
Variable indet : value_type.
Implicit Types (s : @sequence value_type) (d : list value_type).

Lemma inside_load i n : 0 <= i < n -> inside (LoadAt i n) = true.
Proof. intros. cbn. apply andb_true_intro. split; lia. Qed.

Lemma inside_store i n : 0 <= i < n -> inside (StoreAt i n) = true.
Proof. intros. cbn. apply andb_true_intro. split; lia. Qed.

Lemma lookup_load d i :
  0 <= i < Arr.allocated d -> d !! Z.to_nat i = Some (Arr.load indet d i).
Proof.
  intros Hi. unfold Arr.allocated in Hi.
  destruct (d !! Z.to_nat i) as [x|] eqn:E.
  - by rewrite (load_lookup indet d i x) by (lia || done).
  - apply lookup_ge_None in E. lia.
Qed.

(** The loop of [insert] and [attach]: the cells [i - n + 1 .. i] receive
    what their left neighbours held, and every access is inside. *)
Lemma shift_up_cells n : forall i s,
  Z.of_nat n <= i -> i < Arr.allocated (data s) ->
  Arr.allocated (data s) < SIZE_MOD ->
  exists s' accesses, shift_up indet n i s = Ok s' /\
    used s' = used s /\ current_index s' = current_index s /\
    capacity s' = capacity s /\ length (data s') = length (data s) /\
    (forall k : nat,
       data s' !! k =
         if decide (i - Z.of_nat n < Z.of_nat k <= i)
         then data s !! (k - 1)%nat else data s !! k) /\
    log s' = accesses ++ log s /\ all_inside accesses.
Proof.
  induction n as [|n IH]; intros i s Hn Hi Hmod.
  - exists s, []. repeat split; try done; [|constructor].
    intros k. case_decide; [lia|done].
  - cbn [shift_up]. unfold move, rd, wr. cbn [data used current_index capacity log].
    rewrite wrap_small by lia. rewrite store_inside by lia. cbn [bind].
    set (s1 := Build _ _ _ _ _).
    assert (Hsame : Arr.allocated (data s1) = Arr.allocated (data s))
      by (subst s1; unfold Arr.allocated; cbn [data]; by rewrite length_insert).
    destruct (IH (i - 1) s1)
      as (s' & accesses & Hrun & Hu & Hc & Hcap & Hlen & Hcells & Hlog & Hin);
      [lia|rewrite Hsame; lia|rewrite Hsame; lia|].
    exists s', (accesses ++ [StoreAt i (Arr.allocated (data s));
                             LoadAt (i - 1) (Arr.allocated (data s))]).
    rewrite Hrun. subst s1. cbn [data used current_index capacity log] in *.
    rewrite length_insert in Hlen.
    repeat split; try done.
    + intros k. rewrite Hcells.
      destruct (decide (k = Z.to_nat i)) as [->|Hne].
      * repeat case_decide; try lia.
        rewrite list_lookup_insert_eq by (unfold Arr.allocated in *; lia).
        replace (Z.to_nat i - 1)%nat with (Z.to_nat (i - 1)) by lia.
        symmetry. apply lookup_load. lia.
      * repeat case_decide; try lia; by rewrite list_lookup_insert_ne by lia.
    + by rewrite Hlog, <- app_assoc.
    + apply Forall_app. split; [done|].
      repeat constructor; [apply inside_store|apply inside_load]; lia.
Qed.

(** The copy loop of [resize]. *)
Lemma resize_copy_cells n : forall i s temp,
  0 <= i -> i + Z.of_nat n <= Arr.allocated temp ->
  i + Z.of_nat n <= Arr.allocated (data s) ->
  Arr.allocated temp < SIZE_MOD ->
  exists temp' s' accesses, resize_copy indet n i s temp = Ok (temp', s') /\
    data s' = data s /\ used s' = used s /\
    current_index s' = current_index s /\ capacity s' = capacity s /\
    length temp' = length temp /\
    (forall k : nat,
       temp' !! k =
         if decide (i <= Z.of_nat k < i + Z.of_nat n)
         then data s !! k else temp !! k) /\
    log s' = accesses ++ log s /\ all_inside accesses.
Proof.
  induction n as [|n IH]; intros i s temp Hi Htemp Hdata Hmod.
  - exists temp, s, []. repeat split; try done; [|constructor].
    intros k. case_decide; [lia|done].
  - cbn [resize_copy]. unfold rd. cbn [data used current_index capacity log].
    rewrite store_inside by lia. cbn [bind]. rewrite wrap_small by lia.
    set (s1 := Build _ _ _ _ _).
    set (temp1 := <[Z.to_nat i := _]> temp).
    assert (Hsame : Arr.allocated temp1 = Arr.allocated temp)
      by (subst temp1; unfold Arr.allocated; by rewrite length_insert).
    destruct (IH (i + 1) s1 temp1)
      as (temp' & s' & accesses & Hrun & Hd & Hu & Hc & Hcap & Hlen & Hcells
          & Hlog & Hin);
      [lia|rewrite Hsame; lia|subst s1; cbn [data]; lia|rewrite Hsame; lia|].
    exists temp', s', (accesses ++ [StoreAt i (Arr.allocated temp);
                                   LoadAt i (Arr.allocated (data s))]).
    rewrite Hrun. subst s1 temp1. cbn [data used current_index capacity log] in *.
    rewrite length_insert in Hlen.
    repeat split; try done.
    + intros k. rewrite Hcells.
      destruct (decide (k = Z.to_nat i)) as [->|Hne].
      * repeat case_decide; try lia.
        rewrite list_lookup_insert_eq by (unfold Arr.allocated in *; lia).
        symmetry. apply lookup_load. lia.
      * repeat case_decide; try lia; by rewrite ?list_lookup_insert_ne by lia.
    + by rewrite Hlog, <- app_assoc.
    + apply Forall_app. split; [done|].
      repeat constructor; [apply inside_store|apply inside_load]; lia.
Qed.

(** The copy loop of the copy constructor and of [operator=]. *)
Lemma copy_in_cells n : forall i source s,
  0 <= i -> i + Z.of_nat n <= Arr.allocated (data s) ->
  i + Z.of_nat n <= Arr.allocated source ->
  Arr.allocated (data s) < SIZE_MOD ->
  exists s' accesses, copy_in indet n i source s = Ok s' /\
    used s' = used s /\ current_index s' = current_index s /\
    capacity s' = capacity s /\ length (data s') = length (data s) /\
    (forall k : nat,
       data s' !! k =
         if decide (i <= Z.of_nat k < i + Z.of_nat n)
         then source !! k else data s !! k) /\
    log s' = accesses ++ log s /\ all_inside accesses.
Proof.
  induction n as [|n IH]; intros i source s Hi Hdata Hsource Hmod.
  - exists s, []. repeat split; try done; [|constructor].
    intros k. case_decide; [lia|done].
  - cbn [copy_in]. unfold wr. cbn [data used current_index capacity log].
    rewrite store_inside by lia. cbn [bind]. rewrite wrap_small by lia.
    set (s1 := Build _ _ _ _ _).
    assert (Hsame : Arr.allocated (data s1) = Arr.allocated (data s))
      by (subst s1; unfold Arr.allocated; cbn [data]; by rewrite length_insert).
    destruct (IH (i + 1) source s1)
      as (s' & accesses & Hrun & Hu & Hc & Hcap & Hlen & Hcells & Hlog & Hin);
      [lia|rewrite Hsame; lia|lia|rewrite Hsame; lia|].
    exists s', (accesses ++ [StoreAt i (Arr.allocated (data s));
                             LoadAt i (Arr.allocated source)]).
    rewrite Hrun. subst s1. cbn [data used current_index capacity log] in *.
    rewrite length_insert in Hlen.
    repeat split; try done.
    + intros k. rewrite Hcells.
      destruct (decide (k = Z.to_nat i)) as [->|Hne].
      * repeat case_decide; try lia.
        rewrite list_lookup_insert_eq by (unfold Arr.allocated in *; lia).
        symmetry. apply lookup_load. lia.
      * repeat case_decide; try lia; by rewrite ?list_lookup_insert_ne by lia.
    + by rewrite Hlog, <- app_assoc.
    + apply Forall_app. split; [done|].
      repeat constructor; [apply inside_store|apply inside_load]; lia.
Qed.

(** Two arrays with the same first [u] cells have the same first [u]
    items. *)
Lemma take_agree d d' (u : nat) :
  (u <= length d)%nat -> (u <= length d')%nat ->
  (forall k : nat, (k < u)%nat -> d' !! k = d !! k) ->
  take u d' = take u d.
Proof.
  intros Hd Hd' Hsame. apply list_eq. intros k.
  rewrite !lookup_take. case_decide; [by apply Hsame|done].
Qed.

Lemma size_mod_positive : 1 < SIZE_MOD.
Proof. unfold SIZE_MOD. lia. Qed.

(** What [resize] does to a sequence that satisfies the invariant. *)
Lemma resize_result s new_capacity :
  wf s -> 0 <= new_capacity < SIZE_MOD ->
  exists s' accesses, resize indet s new_capacity = Ok s' /\
    items s' = items s /\ used s' = used s /\
    current_index s' = current_index s /\
    capacity s' = Z.max (Z.max new_capacity (used s)) 1 /\
    wf s' /\ log s' = accesses ++ log s /\ all_inside accesses.
Proof.
  intros (Hci & Hused & Hcap & Hmod) Hnew. unfold resize.
  pose proof size_mod_positive as Hone.
  set (nc := if (if _ <? _ then _ else _) <=? 0 then 1 else _).
  assert (Hnc : nc = Z.max (Z.max new_capacity (used s)) 1).
  { subst nc. destruct (Z.ltb_spec new_capacity (used s));
      [destruct (Z.leb_spec (used s) 0)|destruct (Z.leb_spec new_capacity 0)];
      lia. }
  rewrite new_array_ok by lia. cbn [bind].
  assert (Hcells0 : Arr.allocated (replicate (Z.to_nat nc) indet) = nc)
    by (unfold Arr.allocated; rewrite length_replicate; lia).
  destruct (resize_copy_cells (Z.to_nat (used s)) 0 s
              (replicate (Z.to_nat nc) indet))
    as (temp & s1 & accesses & Hrun & Hd & Hu & Hc & _ & Hlen & Hcells
        & Hlog & Hin); [lia|rewrite Hcells0; lia|lia|rewrite Hcells0; lia|].
  rewrite Hrun. cbn [bind]. rewrite length_replicate in Hlen.
  exists (Build temp (used s1) (current_index s1) nc (log s1)), accesses.
  unfold items, wf, Arr.allocated in *. cbn [data used current_index capacity log].
  rewrite Hu, Hc.
  repeat split; try done; try lia.
  apply take_agree; [lia|lia|].
  intros k Hk. rewrite Hcells. case_decide; [done|lia].
Qed.

(** Opening a gap at [c] in [d], cell by cell. *)
Lemma take_S_insert_at d d' (u c : nat) e :
  (c <= u)%nat -> (u <= length d)%nat -> (u < length d')%nat ->
  (forall k : nat, (k <= u)%nat ->
     d' !! k = if decide (k < c)%nat then d !! k
               else if decide (k = c) then Some e else d !! (k - 1)%nat) ->
  take (S u) d' = take c (take u d) ++ e :: drop c (take u d).
Proof.
  intros Hc Hu Hu' Hcells. apply list_eq. intros k.
  assert (Hlen : length (take c (take u d)) = c)
    by (rewrite !length_take; lia).
  rewrite lookup_take. case_decide as Hk.
  - rewrite Hcells by lia.
    destruct (decide (k < c)%nat) as [Hlt|Hge].
    + rewrite lookup_app_l by lia. by rewrite !lookup_take_lt by lia.
    + rewrite lookup_app_r by lia. rewrite Hlen.
      destruct (decide (k = c)) as [->|Hne].
      * by rewrite Nat.sub_diag.
      * destruct (k - c)%nat as [|m] eqn:Hm; [lia|]. simpl.
        rewrite lookup_drop, lookup_take_lt by lia. f_equal. lia.
  - symmetry. apply lookup_ge_None_2.
    rewrite length_app, Hlen. cbn [length].
    rewrite length_drop, length_take. lia.
Qed.

(** The cells after the shifting loop of [insert] or [attach] and the
    store of the new entry at [c]: the loop has made [u - c] rounds, or one
    more. *)
Lemma gap_filled d1 d2 (u c : Z) (n : nat) e :
  0 <= c <= u -> u < Arr.allocated d1 -> length d2 = length d1 ->
  Z.of_nat n = u - c \/ (Z.of_nat n = u - c + 1 /\ 1 <= c) ->
  (forall k : nat,
     d2 !! k = if decide (u - Z.of_nat n < Z.of_nat k <= u)
               then d1 !! (k - 1)%nat else d1 !! k) ->
  take (Z.to_nat (u + 1)) (<[Z.to_nat c := e]> d2) =
    take (Z.to_nat c) (take (Z.to_nat u) d1)
    ++ e :: drop (Z.to_nat c) (take (Z.to_nat u) d1).
Proof.
  intros Hc Hu Hlen Hn Hcells. unfold Arr.allocated in Hu.
  replace (Z.to_nat (u + 1)) with (S (Z.to_nat u)) by lia.
  apply take_S_insert_at; [lia|lia|rewrite length_insert; lia|].
  intros k Hk.
  destruct (decide (k = Z.to_nat c)) as [->|Hne].
  - rewrite list_lookup_insert_eq by lia.
    repeat case_decide; try lia; done.
  - rewrite list_lookup_insert_ne by lia. rewrite Hcells.
    repeat case_decide; try lia; done.
Qed.

Lemma grown_more c : 0 <= c -> c < grown c.
Proof.
  intros. unfold grown.
  assert (c <= 5 * c / 4) by (apply Z.div_le_lower_bound; lia). lia.
Qed.

(** The first step of [insert] and [attach]: a full array is replaced by
    a longer one with the same items. *)
Lemma make_room s :
  wf s -> grown (capacity s) < SIZE_MOD ->
  exists s1 accesses,
    (if used s =? capacity s then resize indet s (grown (capacity s)) else Ok s)
      = Ok s1 /\
    items s1 = items s /\ used s1 = used s /\
    current_index s1 = current_index s /\
    capacity s1 = (if used s =? capacity s then grown (capacity s) else capacity s) /\
    wf s1 /\ used s1 < capacity s1 /\
    log s1 = accesses ++ log s /\ all_inside accesses.
Proof.
  intros Hwf Hgrown. pose proof Hwf as (Hci & Hused & Hcap & Hmod).
  assert (Hmore : capacity s < grown (capacity s)) by (apply grown_more; lia).
  destruct (Z.eqb_spec (used s) (capacity s)) as [Hfull|Hroom].
  - destruct (resize_result s (grown (capacity s)) Hwf)
      as (s1 & accesses & Hrun & Hitems & Hu & Hc & Hcap1 & Hwf1 & Hlog & Hin);
      [lia|].
    exists s1, accesses. rewrite Hrun, Hcap1.
    split; [done|]. do 4 (split; [done || lia|]).
    split; [done|]. split; [lia|done].
  - exists s, []. repeat split; try done; try lia. constructor.
Qed.

(** What [insert] does to a sequence that satisfies the invariant. *)
Lemma insert_result s entry :
  wf s -> grown (capacity s) < SIZE_MOD ->
  exists s' accesses, insert indet s entry = Ok s' /\
    items s' =
      take (Z.to_nat (if current_index s =? used s then 0 else current_index s))
           (items s)
      ++ entry ::
      drop (Z.to_nat (if current_index s =? used s then 0 else current_index s))
           (items s) /\
    current_index s' = (if current_index s =? used s then 0 else current_index s) /\
    used s' = used s + 1 /\
    capacity s' = (if used s =? capacity s then grown (capacity s) else capacity s) /\
    wf s' /\ log s' = accesses ++ log s /\ all_inside accesses.
Proof.
  intros Hwf Hgrown. unfold insert.
  destruct (make_room s Hwf Hgrown)
    as (s1 & acc1 & Hrun & Hitems & Hu & Hc & Hcap1 & Hwf1 & Hroom & Hlog1 & Hin1).
  rewrite Hrun. cbn [bind]. rewrite <- Hcap1, <- Hitems, <- Hu, <- Hc.
  clear Hrun Hcap1 Hitems Hu Hc Hwf Hgrown.
  destruct Hwf1 as (Hci & Hused & Hcap & Hmod).
  set (c := if current_index s1 =? used s1 then 0 else current_index s1).
  assert (Hc : 0 <= c <= used s1)
    by (subst c; destruct (Z.eqb_spec (current_index s1) (used s1)); lia).
  set (s2 := if current_index s1 =? used s1 then _ else _).
  assert (Hs2 : s2 = set_current_index s1 c).
  { subst s2 c. destruct (Z.eqb_spec (current_index s1) (used s1)) as [|Hne];
      [done|]. by destruct s1. }
  rewrite Hs2. clear s2 Hs2. unfold set_current_index.
  cbn [data used current_index capacity log].
  set (s2 := Build _ _ _ _ _).
  destruct (shift_up_cells (Z.to_nat (used s1 - c)) (used s1) s2)
    as (s3 & acc3 & Hrun & Hu3 & Hc3 & Hcap3 & Hlen3 & Hcells & Hlog3 & Hin3);
    [lia|subst s2; cbn [data]; lia|subst s2; cbn [data]; lia|].
  rewrite Hrun. cbn [bind]. subst s2.
  cbn [data used current_index capacity log] in *.
  unfold set_used, wr. cbn [data used current_index capacity log].
  rewrite Hu3, Hc3, Hcap3. rewrite wrap_small by lia.
  rewrite store_inside by (unfold Arr.allocated in *; lia). cbn [bind].
  eexists _, (StoreAt c (Arr.allocated (data s3)) :: acc3 ++ acc1).
  split; [done|]. unfold items, wf, Arr.allocated in *.
  cbn [data used current_index capacity log]. rewrite length_insert.
  repeat split; try lia.
  - apply (gap_filled (data s1) (data s3) (used s1) c (Z.to_nat (used s1 - c)));
      [lia|unfold Arr.allocated; lia|done|lia|].
    intros k. rewrite Hcells. by repeat case_decide.
  - rewrite Hlog3, Hlog1. simpl. by rewrite <- app_assoc.
  - constructor; [apply inside_store; lia|]. by apply Forall_app.
Qed.

(** What [attach] does to a sequence that satisfies the invariant. *)
Lemma attach_result s entry :
  wf s -> grown (capacity s) < SIZE_MOD ->
  exists s' accesses, attach indet s entry = Ok s' /\
    items s' =
      take (Z.to_nat (if current_index s =? used s then used s
                      else current_index s + 1)) (items s)
      ++ entry ::
      drop (Z.to_nat (if current_index s =? used s then used s
                      else current_index s + 1)) (items s) /\
    current_index s' =
      (if current_index s =? used s then used s else current_index s + 1) /\
    used s' = used s + 1 /\
    capacity s' = (if used s =? capacity s then grown (capacity s) else capacity s) /\
    wf s' /\ log s' = accesses ++ log s /\ all_inside accesses.
Proof.
  intros Hwf Hgrown. unfold attach.
  destruct (make_room s Hwf Hgrown)
    as (s1 & acc1 & Hrun & Hitems & Hu & Hc & Hcap1 & Hwf1 & Hroom & Hlog1 & Hin1).
  rewrite Hrun. cbn [bind]. rewrite <- Hcap1, <- Hitems, <- Hu, <- Hc.
  clear Hrun Hcap1 Hitems Hu Hc Hwf Hgrown.
  destruct Hwf1 as (Hci & Hused & Hcap & Hmod).
  destruct (Z.eqb_spec (current_index s1) (used s1)) as [Hend|Hitem].
  - (* no current item: the entry goes to the end *)
    unfold wr, set_used. cbn [data used current_index capacity log].
    rewrite store_inside by (unfold Arr.allocated in *; lia). cbn [bind].
    cbn [data used current_index capacity log]. rewrite wrap_small by lia.
    eexists _, (StoreAt (current_index s1) (Arr.allocated (data s1)) :: acc1).
    split; [done|]. unfold items, wf, Arr.allocated in *.
    cbn [data used current_index capacity log]. rewrite length_insert.
    repeat split; try lia.
    + rewrite Hend.
      apply (gap_filled (data s1) (data s1) (used s1) (used s1) 0);
        [lia|unfold Arr.allocated; lia|done|lia|].
      intros k. case_decide; [lia|done].
    + by rewrite Hlog1.
    + constructor; [apply inside_store; lia|done].
  - rewrite (wrap_small (used s1 - 1)) by lia.
    destruct (Z.eqb_spec (current_index s1) (used s1 - 1)) as [Hlast|Hmid].
    + (* the current item is the last one *)
      unfold wr, set_used, set_current_index.
      cbn [data used current_index capacity log].
      rewrite !wrap_small by lia.
      rewrite store_inside by (unfold Arr.allocated in *; lia). cbn [bind].
      eexists _, (StoreAt (current_index s1 + 1) (Arr.allocated (data s1)) :: acc1).
      split; [done|]. unfold items, wf, Arr.allocated in *.
      cbn [data used current_index capacity log]. rewrite length_insert.
      repeat split; try lia.
      * replace (current_index s1 + 1) with (used s1) by lia.
        apply (gap_filled (data s1) (data s1) (used s1) (used s1) 0);
          [lia|unfold Arr.allocated; lia|done|lia|].
        intros k. case_decide; [lia|done].
      * by rewrite Hlog1.
      * constructor; [apply inside_store; lia|done].
    + destruct (shift_up_cells (Z.to_nat (used s1 - current_index s1)) (used s1) s1)
        as (s3 & acc3 & Hrun & Hu3 & Hc3 & Hcap3 & Hlen3 & Hcells & Hlog3 & Hin3);
        [lia|lia|lia|].
      rewrite Hrun. cbn [bind].
      unfold wr, set_used, set_current_index.
      cbn [data used current_index capacity log].
      rewrite Hu3, Hc3, Hcap3. rewrite !wrap_small by lia.
      rewrite store_inside by (unfold Arr.allocated in *; lia). cbn [bind].
      eexists _, (StoreAt (current_index s1 + 1) (Arr.allocated (data s3))
                    :: acc3 ++ acc1).
      split; [done|]. unfold items, wf, Arr.allocated in *.
      cbn [data used current_index capacity log]. rewrite length_insert.
      repeat split; try lia.
      * apply (gap_filled (data s1) (data s3) (used s1) (current_index s1 + 1)
                 (Z.to_nat (used s1 - current_index s1)));
          [lia|unfold Arr.allocated; lia|done|lia|].
        intros k. rewrite Hcells. by repeat case_decide.
      * rewrite Hlog3, Hlog1. simpl. by rewrite <- app_assoc.
      * constructor; [apply inside_store; lia|]. by apply Forall_app.
Qed.

(** What [remove_current] does to a sequence that satisfies the
    invariant and has a current item. *)
Lemma remove_current_result s :
  wf s -> is_item s = true ->
  exists s', remove_current indet s = Ok s' /\
    items s' = delete (Z.to_nat (current_index s)) (items s) /\
    used s' = used s - 1 /\ current_index s' = current_index s /\
    capacity s' = capacity s /\ wf s'.
Proof.
  intros (Hci & Hused & Hcap & Hmod) Hitem. unfold is_item in Hitem.
  destruct (Z.eqb_spec (current_index s) (used s)) as [|Hne]; [done|].
  unfold remove_current, is_item.
  destruct (Z.eqb_spec (current_index s) (used s)) as [|_]; [done|].
  cbn [negb]. rewrite wrap_small by lia.
  destruct (Z.eqb_spec (current_index s) (used s - 1)) as [Hlast|Hmid].
  - eexists. split; [done|].
    unfold items, wf, set_used, set_current_index.
    cbn [data used current_index capacity].
    repeat split; try done; try lia.
    rewrite Hlast.
    replace (Z.to_nat (used s - 1)) with (Z.to_nat (used s) - 1)%nat by lia.
    apply take_pred_delete; [unfold Arr.allocated in *; lia|done|].
    intros k Hk. by case_decide; [|lia].
  - destruct (shift_down_cells indet (Z.to_nat (used s - current_index s))
                (current_index s) s)
      as (s' & Hrun & Hu & Hc & Hcp & Hlen & Hcells); [lia|lia|lia|].
    rewrite Hrun. cbn [bind]. eexists. split; [done|].
    unfold items, wf, set_used, Arr.allocated in *.
    cbn [data used current_index capacity]. rewrite Hu, Hc, Hcp, Hlen.
    rewrite wrap_small by lia.
    repeat split; try done; try lia.
    replace (Z.to_nat (used s - 1)) with (Z.to_nat (used s) - 1)%nat by lia.
    apply take_pred_delete; [lia|done|].
    intros k Hk. rewrite Hcells.
    repeat case_decide; try lia; try done.
    rewrite <- (lookup_load (data s) (Z.of_nat k + 1))
      by (unfold Arr.allocated; lia).
    f_equal. lia.
Qed.

(** The current item is the item of the content at [current_index]. *)
Lemma current_is_item_at s x :
  wf s -> items s !! Z.to_nat (current_index s) = Some x ->
  is_item s = true /\ current indet s = Ok x.
Proof.
  intros (Hci & Hused & Hcap & Hmod) Hx. unfold items in Hx.
  apply lookup_take_Some in Hx as [Hx Hlt].
  unfold current, is_item.
  destruct (Z.eqb_spec (current_index s) (used s)) as [|_]; [lia|].
  split; [done|]. f_equal. apply load_lookup; [lia|done].
Qed.

Lemma items_length s : wf s -> length (items s) = Z.to_nat (used s).
Proof.
  intros (Hci & Hused & Hcap & Hmod). unfold items, Arr.allocated in *.
  rewrite length_take. lia.
Qed.

Lemma entry_in_the_gap (l : list value_type) (c : nat) e :
  (c <= length l)%nat -> (take c l ++ e :: drop c l) !! c = Some e.
Proof. intros. apply list_lookup_middle. rewrite length_take. lia. Qed.

Lemma delete_the_gap (l : list value_type) (c : nat) e :
  (c <= length l)%nat -> delete c (take c l ++ e :: drop c l) = l.
Proof.
  intros Hc. pose proof (delete_middle (take c l) (drop c l) e) as Hdel.
  rewrite length_take, Nat.min_l in Hdel by lia.
  by rewrite Hdel, take_drop.
Qed.

(** X1.  [insert] on a sequence that satisfies the class invariant puts
    the entry in front of the current item, or at the front when there is
    no current item; the items from there on move one place up, the new
    entry is the current item and the size goes up by one.  A full array is
    resized first, so the call never fails. *)
Theorem insert_puts_entry_before_cursor s entry :
  wf s -> grown (capacity s) < SIZE_MOD ->
  exists s', insert indet s entry = Ok s' /\
    items s' =
      take (Z.to_nat (if current_index s =? used s then 0 else current_index s))
           (items s)
      ++ entry ::
      drop (Z.to_nat (if current_index s =? used s then 0 else current_index s))
           (items s) /\
    current_index s' = (if current_index s =? used s then 0 else current_index s) /\
    current indet s' = Ok entry /\
    size s' = size s + 1 /\ wf s'.
Proof.
  intros Hwf Hgrown.
  destruct (insert_result s entry Hwf Hgrown)
    as (s' & _ & Hrun & Hitems & Hc & Hu & _ & Hwf' & _).
  exists s'. do 3 (split; [done|]). split; [|by split].
  apply current_is_item_at; [done|].
  rewrite Hitems, Hc. apply entry_in_the_gap.
  rewrite items_length by done. destruct Hwf as (? & _).
  destruct (Z.eqb_spec (current_index s) (used s)); lia.
Qed.

(** X2.  [attach] on a sequence that satisfies the class invariant puts
    the entry behind the current item, or at the end when there is no
    current item; the new entry is the current item and the size goes up by
    one. *)
Theorem attach_puts_entry_after_cursor s entry :
  wf s -> grown (capacity s) < SIZE_MOD ->
  exists s', attach indet s entry = Ok s' /\
    items s' =
      take (Z.to_nat (if current_index s =? used s then used s
                      else current_index s + 1)) (items s)
      ++ entry ::
      drop (Z.to_nat (if current_index s =? used s then used s
                      else current_index s + 1)) (items s) /\
    current_index s' =
      (if current_index s =? used s then used s else current_index s + 1) /\
    current indet s' = Ok entry /\
    size s' = size s + 1 /\ wf s'.
Proof.
  intros Hwf Hgrown.
  destruct (attach_result s entry Hwf Hgrown)
    as (s' & _ & Hrun & Hitems & Hc & Hu & _ & Hwf' & _).
  exists s'. do 3 (split; [done|]). split; [|by split].
  apply current_is_item_at; [done|].
  rewrite Hitems, Hc. apply entry_in_the_gap.
  rewrite items_length by done. destruct Hwf as (? & _).
  destruct (Z.eqb_spec (current_index s) (used s)); lia.
Qed.

(** X3.  Every array access [insert] and [attach] make, the copy loop of
    [resize] included, is inside the array it goes to. *)
Theorem insert_and_attach_stay_inside_the_array s entry :
  wf s -> grown (capacity s) < SIZE_MOD ->
  (exists s' accesses, insert indet s entry = Ok s' /\
     log s' = accesses ++ log s /\ all_inside accesses) /\
  (exists s' accesses, attach indet s entry = Ok s' /\
     log s' = accesses ++ log s /\ all_inside accesses).
Proof.
  intros Hwf Hgrown. split.
  - destruct (insert_result s entry Hwf Hgrown)
      as (s' & accesses & Hrun & _ & _ & _ & _ & _ & Hlog & Hin).
    by exists s', accesses.
  - destruct (attach_result s entry Hwf Hgrown)
      as (s' & accesses & Hrun & _ & _ & _ & _ & _ & Hlog & Hin).
    by exists s', accesses.
Qed.

(** X4.  [insert] followed by [remove_current] gives back the items the
    sequence had; the cursor is on the item that was current, or on the
    first item when there was none. *)
Theorem insert_then_remove_current_restores s entry :
  wf s -> grown (capacity s) < SIZE_MOD ->
  exists s1 s2, insert indet s entry = Ok s1 /\
    remove_current indet s1 = Ok s2 /\
    items s2 = items s /\ size s2 = size s /\
    current_index s2 = (if current_index s =? used s then 0 else current_index s).
Proof.
  intros Hwf Hgrown.
  destruct (insert_result s entry Hwf Hgrown)
    as (s1 & _ & Hrun1 & Hitems1 & Hc1 & Hu1 & _ & Hwf1 & _).
  assert (Hin : (Z.to_nat (current_index s1) <= length (items s))%nat).
  { rewrite Hc1, items_length by done. destruct Hwf as (? & _).
    destruct (Z.eqb_spec (current_index s) (used s)); lia. }
  destruct (remove_current_result s1 Hwf1)
    as (s2 & Hrun2 & Hitems2 & Hu2 & Hc2 & _).
  { destruct (current_is_item_at s1 entry Hwf1) as [Hitem _]; [|done].
    rewrite Hitems1, <- Hc1. by apply entry_in_the_gap. }
  exists s1, s2. repeat split; try done.
  - rewrite Hitems2, Hitems1, <- Hc1. by apply delete_the_gap.
  - unfold size. lia.
  - by rewrite Hc2.
Qed.

(** X5.  [attach] followed by [remove_current] gives back the items the
    sequence had; the cursor is on the item behind the one that was
    current, if there is one. *)
Theorem attach_then_remove_current_restores s entry :
  wf s -> grown (capacity s) < SIZE_MOD ->
  exists s1 s2, attach indet s entry = Ok s1 /\
    remove_current indet s1 = Ok s2 /\
    items s2 = items s /\ size s2 = size s /\
    current_index s2 =
      (if current_index s =? used s then used s else current_index s + 1).
Proof.
  intros Hwf Hgrown.
  destruct (attach_result s entry Hwf Hgrown)
    as (s1 & _ & Hrun1 & Hitems1 & Hc1 & Hu1 & _ & Hwf1 & _).
  assert (Hin : (Z.to_nat (current_index s1) <= length (items s))%nat).
  { rewrite Hc1, items_length by done. destruct Hwf as (? & _).
    destruct (Z.eqb_spec (current_index s) (used s)); lia. }
  destruct (remove_current_result s1 Hwf1)
    as (s2 & Hrun2 & Hitems2 & Hu2 & Hc2 & _).
  { destruct (current_is_item_at s1 entry Hwf1) as [Hitem _]; [|done].
    rewrite Hitems1, <- Hc1. by apply entry_in_the_gap. }
  exists s1, s2. repeat split; try done.
  - rewrite Hitems2, Hitems1, <- Hc1. by apply delete_the_gap.
  - unfold size. lia.
  - by rewrite Hc2.
Qed.

(** X6.  [advance] on a sequence with a current item moves the cursor one
    place up and touches nothing else; the invariant is kept, and there is
    no current item afterwards exactly when the item was the last one. *)
Theorem advance_moves_to_next_item s :
  wf s -> is_item s = true ->
  advance s = Ok (set_current_index s (current_index s + 1)) /\
  wf (set_current_index s (current_index s + 1)) /\
  (is_item (set_current_index s (current_index s + 1)) = false <->
   current_index s = used s - 1).
Proof.
  intros (Hci & Hused & Hcap & Hmod) Hitem. unfold advance. rewrite Hitem.
  cbn [negb]. unfold is_item in *.
  destruct (Z.eqb_spec (current_index s) (used s)) as [|Hne]; [done|].
  rewrite wrap_small by lia. split; [done|].
  unfold wf, set_current_index. cbn [data used current_index capacity].
  split; [repeat split; (done || lia)|].
  destruct (Z.eqb_spec (current_index s + 1) (used s)); split; (done || lia).
Qed.

Lemma advance_from k s :
  wf s -> 0 <= k < used s ->
  advance (set_current_index s k) = Ok (set_current_index s (k + 1)).
Proof.
  intros (Hci & Hused & Hcap & Hmod) Hk. unfold advance, is_item, set_current_index.
  cbn [data used current_index capacity log].
  destruct (Z.eqb_spec k (used s)) as [|_]; [lia|].
  cbn [negb]. by rewrite wrap_small by lia.
Qed.

(** X7.  [start] followed by [k] calls of [advance], for [k] up to the
    size: the cursor is on item [k] of the content, which [current]
    returns; after as many calls as there are items there is no current
    item.  So the loop [for (s.start(); s.is_item(); s.advance())] visits
    the items in order and stops. *)
Theorem start_then_advances_visit_items_in_order s (k : nat) :
  wf s -> Z.of_nat k <= used s ->
  Nat.iter k (fun r => s' <- r ;; advance s') (start s) =
    Ok (set_current_index s (Z.of_nat k)) /\
  (forall x, items s !! k = Some x ->
     current indet (set_current_index s (Z.of_nat k)) = Ok x) /\
  (is_item (set_current_index s (Z.of_nat k)) = false <-> Z.of_nat k = used s).
Proof.
  intros Hwf Hk. split; [|split].
  - induction k as [|k IH]; [done|].
    rewrite Nat.iter_succ, IH by lia. cbn [bind].
    rewrite advance_from by (done || lia). do 2 f_equal. lia.
  - intros x Hx.
    assert (Hwfk : wf (set_current_index s (Z.of_nat k))).
    { destruct Hwf as (? & ? & ? & ?). unfold wf, set_current_index.
      cbn [data used current_index capacity]. repeat split; (done || lia). }
    apply (current_is_item_at _ x Hwfk). cbn [current_index set_current_index].
    by rewrite Nat2Z.id.
  - unfold is_item, set_current_index. cbn [used current_index].
    destruct (Z.eqb_spec (Z.of_nat k) (used s)); split; (done || lia).
Qed.

(** X8.  [resize] keeps the items and the cursor; the capacity becomes
    the requested one, but not less than the number of items and not less
    than 1. *)
Theorem resize_keeps_the_items s new_capacity :
  wf s -> 0 <= new_capacity < SIZE_MOD ->
  exists s', resize indet s new_capacity = Ok s' /\
    items s' = items s /\ size s' = size s /\
    current_index s' = current_index s /\
    capacity s' = Z.max (Z.max new_capacity (used s)) 1 /\ wf s'.
Proof.
  intros Hwf Hnew.
  destruct (resize_result s new_capacity Hwf Hnew)
    as (s' & _ & Hrun & Hitems & Hu & Hc & Hcap & Hwf' & _).
  by exists s'.
Qed.

(** X9.  [operator=] makes the target hold the items, the size and the
    cursor of the source.  The capacity of the target is kept when it is
    at least that of the source and becomes that of the source otherwise;
    it never shrinks. *)
Theorem assign_takes_over_the_source this source :
  wf this -> wf source ->
  exists s', assign indet this source = Ok s' /\
    items s' = items source /\ size s' = size source /\
    current_index s' = current_index source /\
    capacity s' = Z.max (capacity this) (capacity source) /\ wf s'.
Proof.
  intros (Hci & Hused & Hcap & Hmod) (Hci' & Hused' & Hcap' & Hmod').
  unfold assign. cbn [data used current_index capacity log].
  destruct (Z.ltb_spec (capacity this) (capacity source)) as [Hless|Hmore].
  - rewrite new_array_ok by lia. cbn [bind].
    set (s1 := Build _ _ _ _ _).
    assert (Hcells : Arr.allocated (data s1) = capacity source)
      by (subst s1; unfold Arr.allocated; cbn [data];
          rewrite length_replicate; lia).
    destruct (copy_in_cells (Z.to_nat (used source)) 0 (data source) s1)
      as (s' & _ & Hrun & Hu & Hc & Hcp & Hlen & Hlook & _);
      [lia|rewrite Hcells; lia|lia|rewrite Hcells; lia|].
    exists s'. rewrite Hrun. subst s1. unfold items, size, wf, Arr.allocated in *.
    cbn [data used current_index capacity] in *.
    rewrite Hu, Hc, Hcp, Hlen.
    repeat split; try done; try lia.
    apply take_agree; [lia|lia|].
    intros k Hk. rewrite Hlook. case_decide; [done|lia].
  - cbn [bind]. set (s1 := Build _ _ _ _ _).
    destruct (copy_in_cells (Z.to_nat (used source)) 0 (data source) s1)
      as (s' & _ & Hrun & Hu & Hc & Hcp & Hlen & Hlook & _);
      [lia|subst s1; cbn [data]; lia|lia|subst s1; cbn [data]; lia|].
    exists s'. rewrite Hrun. subst s1. unfold items, size, wf, Arr.allocated in *.
    cbn [data used current_index capacity] in *.
    rewrite Hu, Hc, Hcp, Hlen.
    repeat split; try done; try lia.
    apply take_agree; [lia|lia|].
    intros k Hk. rewrite Hlook. case_decide; [done|lia].
Qed.

(** X10.  The copy constructor builds a sequence with the items, the
    size, the cursor and the capacity of the source, in an array of its
    own. *)
Theorem copy_ctor_copies_the_source source :
  wf source ->
  exists s', copy_ctor indet source = Ok s' /\
    items s' = items source /\ size s' = size source /\
    current_index s' = current_index source /\
    capacity s' = capacity source /\ wf s'.
Proof.
  intros (Hci & Hused & Hcap & Hmod). unfold copy_ctor.
  rewrite new_array_ok by lia. cbn [bind].
  set (s1 := Build _ _ _ _ _).
  assert (Hcells : Arr.allocated (data s1) = capacity source)
    by (subst s1; unfold Arr.allocated; cbn [data];
        rewrite length_replicate; lia).
  destruct (copy_in_cells (Z.to_nat (used source)) 0 (data source) s1)
    as (s' & _ & Hrun & Hu & Hc & Hcp & Hlen & Hlook & _);
    [lia|rewrite Hcells; lia|lia|rewrite Hcells; lia|].
  exists s'. rewrite Hrun. subst s1. unfold items, size, wf, Arr.allocated in *.
  cbn [data used current_index capacity] in *.
  rewrite Hu, Hc, Hcp, Hlen.
  repeat split; try done; try lia.
  apply take_agree; [lia|lia|].
  intros k Hk. rewrite Hlook. case_decide; [done|lia].
Qed.

(** X11.  [remove_current] keeps the class invariant: afterwards the
    cursor is still at most the size, and the size at most the capacity,
    which does not change. *)
Theorem remove_current_keeps_the_invariant s :
  wf s -> is_item s = true ->
  exists s', remove_current indet s = Ok s' /\ wf s' /\
    size s' = size s - 1 /\ capacity s' = capacity s.
Proof.
  intros Hwf Hitem.
  destruct (remove_current_result s Hwf Hitem)
    as (s' & Hrun & _ & Hu & _ & Hcap & Hwf').
  by exists s'.
Qed.
End SequenceOperations.

(** * More about the IntSet class: the other member functions *)

Section IntSetOperations.
Import IntSet.
Variables (DEFAULT_CAPACITY indet : Z).
Implicit Types (s t : IntSet) (d : list Z).

Lemma members_length s : wf s -> length (members s) = Z.to_nat (used s).
Proof.
  intros ((? & ?) & Hcap). unfold members, Arr.allocated in *.
  rewrite length_take. lia.
Qed.

(** A cell below [used] holds a member, and every member sits in such a
    cell. *)
Lemma member_cell s (k : nat) :
  wf s -> Z.of_nat k < used s ->
  In (Arr.load indet (data s) (Z.of_nat k)) (members s).
Proof.
  intros ((? & ?) & Hcap) Hk. apply list_elem_of_In, list_elem_of_lookup.
  exists k. unfold members. rewrite lookup_take_lt by lia.
  rewrite <- (Nat2Z.id k) at 1. apply (lookup_load indet).
  unfold Arr.allocated in *. lia.
Qed.

Lemma member_has_cell s v :
  In v (members s) ->
  exists k : nat, Z.of_nat k < used s /\ data s !! k = Some v.
Proof.
  intros Hin. apply list_elem_of_In, list_elem_of_lookup in Hin as [k Hk].
  unfold members in Hk. apply lookup_take_Some in Hk as [Hcell Hlt].
  exists k. split; [lia|done].
Qed.

(** When [found] starts out false, the scan of [contains] stops with
    [true] only at a cell that holds the value. *)
Lemma contains_scan_sound n : forall i s anInt,
  0 <= i -> contains_scan indet n i false s anInt = true ->
  exists k : nat, i <= Z.of_nat k < i + Z.of_nat n /\
                  Arr.load indet (data s) (Z.of_nat k) = anInt.
Proof.
  induction n as [|n IH]; intros i s anInt Hi; cbn [contains_scan]; [done|].
  destruct (Z.eqb_spec (Arr.load indet (data s) i) anInt) as [Heq|Hne].
  - intros _. exists (Z.to_nat i). rewrite Z2Nat.id by lia. split; [lia|done].
  - intros Hrun. destruct (IH (i + 1) s anInt) as (k & Hk & Hload); [lia|done|].
    exists k. split; [lia|done].
Qed.

(** When [contains] answers [true]. *)
Lemma contains_result (found0 : bool) s v :
  wf s ->
  contains indet found0 s v = true <->
  0 < used s /\ (found0 = true \/ In v (members s)).
Proof.
  intros Hwf. pose proof Hwf as ((Hu0 & Hu) & Hcap). split.
  - unfold contains, isEmpty, size.
    destruct (Z.eqb_spec (used s) 0) as [|Hne]; [done|].
    intros Hrun. split; [lia|]. destruct found0; [by left|right].
    apply contains_scan_sound in Hrun as (k & Hk & <-); [|lia].
    apply member_cell; [done|lia].
  - intros [Hpos [->|Hin]]; [|by apply contains_member].
    unfold contains, isEmpty, size.
    destruct (Z.eqb_spec (used s) 0) as [|_]; [lia|].
    apply contains_scan_found.
Qed.

(** X12.  [contains] answers [false] on the empty set.  On a non-empty
    set it answers [true] when the value is a member, and also when the
    local [found], which the loop condition reads before any assignment,
    happens to start out true; it answers [false] otherwise. *)
Theorem contains_characterised (found0 : bool) s v :
  wf s ->
  contains indet found0 s v = true <->
  0 < used s /\ (found0 = true \/ In v (members s)).
Proof. apply contains_result. Qed.

(** The loop of [isSubsetOf] over at least one cell succeeds exactly
    when [contains] finds each of the cells' values in the other set. *)
Lemma subset_scan_all (found0 : bool) n : forall i isSubset s t,
  0 <= i ->
  subset_scan indet found0 (S n) i isSubset s t = true <->
  forall k : nat, i <= Z.of_nat k < i + Z.of_nat (S n) ->
    contains indet found0 t (Arr.load indet (data s) (Z.of_nat k)) = true.
Proof.
  induction n as [|n IH]; intros i isSubset s t Hi.
  - cbn [subset_scan]. split.
    + intros Hrun k Hk. assert (Z.of_nat k = i) as -> by lia.
      by destruct (contains _ _ _ _).
    + intros Hall. specialize (Hall (Z.to_nat i)).
      rewrite Z2Nat.id in Hall by lia. by rewrite Hall by lia.
  - remember (S n) as m eqn:Hm. cbn [subset_scan]. split.
    + intros Hrun k Hk.
      destruct (contains indet found0 t (Arr.load indet (data s) i)) eqn:Hhere;
        [|done].
      destruct (decide (Z.of_nat k = i)) as [->|Hne]; [done|].
      subst m. apply (IH (i + 1) true s t); [lia|done|lia].
    + intros Hall. pose proof (Hall (Z.to_nat i)) as Hhere.
      rewrite Z2Nat.id in Hhere by lia. rewrite Hhere by lia.
      subst m. apply IH; [lia|]. intros k Hk. apply Hall; lia.
Qed.

(** Past its two shortcuts, [isSubsetOf] asks [contains] about every
    member of the receiver. *)
Lemma isSubsetOf_asks_contains (found0 isSubset0 : bool) s t :
  wf s -> 0 < used s -> used s <= used t ->
  isSubsetOf indet found0 isSubset0 s t = true <->
  forall x, In x (members s) -> contains indet found0 t x = true.
Proof.
  intros Hwf Hpos Hle. pose proof Hwf as ((_ & Hu) & Hcap).
  unfold isSubsetOf, isEmpty, size.
  destruct (Z.eqb_spec (used s) 0) as [|_]; [lia|].
  destruct (Z.ltb_spec (used t) (used s)) as [|_]; [lia|].
  destruct (Z.to_nat (used s)) as [|n] eqn:Hn; [lia|].
  rewrite subset_scan_all by lia. split.
  - intros Hall x Hin. apply member_has_cell in Hin as (k & Hk & Hcell).
    rewrite <- (load_lookup indet (data s) (Z.of_nat k) x);
      [apply Hall; lia|lia|by rewrite Nat2Z.id].
  - intros Hall k Hk. apply Hall, member_cell; [done|lia].
Qed.



(** The first place a member sits at. *)
Lemma first_occurrence (l : list Z) v :
  In v l ->
  exists k : nat, l !! k = Some v /\ forall j : nat, (j < k)%nat -> l !! j <> Some v.
Proof.
  induction l as [|x l IH]; [done|]. intros Hin.
  destruct (decide (x = v)) as [->|Hne].
  - exists 0%nat. split; [done|]. intros j Hj. lia.
  - destruct Hin as [|Hin]; [done|]. destruct (IH Hin) as (k & Hk & Hfirst).
    exists (S k). split; [done|]. intros [|j] Hj; cbn.
    + by intros [= ->].
    + apply Hfirst. lia.
Qed.

(** The inner loop of [remove]. *)
Lemma remove_shift_cells n : forall j d,
  0 <= j -> j + Z.of_nat n + 1 <= Arr.allocated d ->
  exists d', remove_shift indet n j d = Ok d' /\ length d' = length d /\
    forall k : nat,
      d' !! k = if decide (j <= Z.of_nat k < j + Z.of_nat n)
                then d !! S k else d !! k.
Proof.
  induction n as [|n IH]; intros j d Hj Hn.
  - exists d. repeat split; try done. intros k. case_decide; [lia|done].
  - cbn [remove_shift]. rewrite store_inside by lia. cbn [bind].
    set (d1 := <[Z.to_nat j := _]> d).
    assert (Hlen1 : length d1 = length d) by (subst d1; by rewrite length_insert).
    destruct (IH (j + 1) d1) as (d' & Hrun & Hlen & Hcells);
      [lia|unfold Arr.allocated in *; lia|].
    exists d'. rewrite Hrun. split; [done|]. split; [lia|].
    intros k. rewrite Hcells. subst d1.
    destruct (decide (k = Z.to_nat j)) as [->|Hne].
    + repeat case_decide; try lia.
      rewrite list_lookup_insert_eq by (unfold Arr.allocated in *; lia).
      rewrite <- (lookup_load indet d (j + 1)) by lia. f_equal. lia.
    + repeat case_decide; try lia; by rewrite list_lookup_insert_ne by lia.
Qed.

(** [std::copy] of a range onto itself changes nothing. *)
Lemma copy_cells_self n i d :
  0 <= i -> i + Z.of_nat n <= Arr.allocated d ->
  Arr.copy_cells indet n i d d = Ok d.
Proof.
  intros Hi Hn.
  destruct (copy_cells_inside indet n i d d Hi Hn) as (d' & Hrun & Hlen & Hcells).
  rewrite Hrun. f_equal. apply list_eq. intros k. rewrite Hcells.
  case_decide; [|done].
  rewrite <- (Nat2Z.id k) at 2. symmetry. apply (lookup_load indet). lia.
Qed.

(** The search loop of [remove] when the value first sits in cell [k]. *)
Lemma remove_search_finds n : forall i s v (k : nat),
  wf s -> 0 <= i <= Z.of_nat k -> Z.of_nat k < i + Z.of_nat n ->
  Z.of_nat k < used s -> data s !! k = Some v ->
  (forall j : nat, i <= Z.of_nat j < Z.of_nat k -> data s !! j <> Some v) ->
  exists d', remove_search indet n i s v
               = Ok (Build d' (used s - 1) (capacity s), true) /\
    length d' = length (data s) /\
    forall m : nat, (m < Z.to_nat (used s) - 1)%nat ->
      d' !! m = if decide (m < k)%nat then data s !! m else data s !! S m.
Proof.
  induction n as [|n IH]; intros i s v k Hwf Hi Hn Hk Hcell Hfirst; [lia|].
  pose proof Hwf as ((_ & Hu) & Hcap). cbn [remove_search].
  destruct (decide (i = Z.of_nat k)) as [->|Hne].
  - rewrite (load_lookup indet (data s) (Z.of_nat k) v); [|lia|by rewrite Nat2Z.id].
    rewrite Z.eqb_refl.
    destruct (remove_shift_cells (Z.to_nat (used s - 1 - Z.of_nat k))
                (Z.of_nat k) (data s)) as (d1 & Hrun & Hlen & Hcells); [lia|lia|].
    rewrite Hrun. cbn [bind].
    rewrite copy_cells_self by (unfold Arr.allocated in *; lia). cbn [bind].
    exists d1. repeat split; try done.
    intros m Hm. rewrite Hcells. repeat case_decide; try lia; done.
  - assert (Hother : Arr.load indet (data s) i <> v).
    { intros Heq. apply (Hfirst (Z.to_nat i)); [lia|].
      rewrite <- Heq. apply (lookup_load indet). lia. }
    destruct (Z.eqb_spec (Arr.load indet (data s) i) v) as [|_]; [done|].
    apply IH; try done; try lia. intros j Hj. apply Hfirst. lia.
Qed.

(** The search loop of [remove] when the value sits in none of the cells
    it looks at. *)
Lemma remove_search_misses n : forall i s v,
  (forall k : nat, i <= Z.of_nat k < i + Z.of_nat n ->
     Arr.load indet (data s) (Z.of_nat k) <> v) ->
  0 <= i -> remove_search indet n i s v = Ok (s, false).
Proof.
  induction n as [|n IH]; intros i s v Hmiss Hi; cbn [remove_search]; [done|].
  destruct (Z.eqb_spec (Arr.load indet (data s) i) v) as [Heq|_].
  - exfalso. apply (Hmiss (Z.to_nat i)); [lia|]. by rewrite Z2Nat.id by lia.
  - apply IH; [|lia]. intros k Hk. apply Hmiss. lia.
Qed.

(** What [remove] does with a member: its first occurrence goes, the
    other elements keep their order. *)
Lemma remove_result (found0 : bool) s v :
  wf s -> In v (members s) ->
  exists s' l1 l2, remove indet found0 s v = Ok (s', true) /\
    members s = l1 ++ v :: l2 /\ ~ In v l1 /\ members s' = l1 ++ l2 /\
    used s' = used s - 1 /\ capacity s' = capacity s /\ wf s'.
Proof.
  intros Hwf Hin. pose proof Hwf as ((Hu0 & Hu) & Hcap).
  destruct (first_occurrence _ _ Hin) as (k & Hk & Hfirst).
  pose proof Hk as Hk'. unfold members in Hk'.
  apply lookup_take_Some in Hk' as [Hcell Hlt].
  unfold remove. rewrite contains_member by done.
  unfold isEmpty, size. destruct (Z.eqb_spec (used s) 0) as [|_]; [lia|].
  cbn [negb orb].
  destruct (remove_search_finds (Z.to_nat (used s)) 0 s v k)
    as (d' & Hrun & Hlen & Hcells); try done; try lia.
  { intros j Hj. rewrite <- (lookup_take_lt _ (Z.to_nat (used s))) by lia.
    apply Hfirst. lia. }
  rewrite Hrun.
  exists (Build d' (used s - 1) (capacity s)), (take k (members s)),
         (drop (S k) (members s)).
  split; [done|]. split; [by rewrite take_drop_middle|]. split.
  { intros Hbad. apply list_elem_of_In, list_elem_of_lookup in Hbad as [j Hj].
    apply lookup_take_Some in Hj as [Hj Hjk]. by apply (Hfirst j). }
  unfold members, wf, Arr.allocated in *. cbn [data used capacity].
  rewrite Hlen. repeat split; try done; try lia.
  rewrite <- delete_take_drop.
  replace (Z.to_nat (used s - 1)) with (Z.to_nat (used s) - 1)%nat by lia.
  apply take_pred_delete; [lia|done|done].
Qed.

(** X14.  [remove] of a member takes out its first occurrence and
    answers [true]: the elements in front of it and behind it stay, in
    their order, the size goes down by one and the capacity stays. *)
Theorem remove_takes_out_first_occurrence (found0 : bool) s v :
  wf s -> In v (members s) ->
  exists s' l1 l2, remove indet found0 s v = Ok (s', true) /\
    members s = l1 ++ v :: l2 /\ ~ In v l1 /\ members s' = l1 ++ l2 /\
    size s' = size s - 1 /\ capacity s' = capacity s /\ wf s'.
Proof. apply remove_result. Qed.

(** X15.  [remove] of a value that is not a member answers [false] and
    leaves the set as it is, whatever [contains] made of its unset local. *)
Theorem remove_of_a_stranger_changes_nothing (found0 : bool) s v :
  wf s -> ~ In v (members s) ->
  remove indet found0 s v = Ok (s, false).
Proof.
  intros Hwf Hnot. unfold remove.
  destruct (negb (contains indet found0 s v) || isEmpty s); [done|].
  apply remove_search_misses; [|lia].
  intros k Hk Heq. apply Hnot. rewrite <- Heq. apply member_cell; [done|lia].
Qed.

(** X16.  On a set without duplicates, [remove] of a member gives a set
    without duplicates that no longer holds the value and holds every other
    member as before. *)
Theorem remove_from_a_proper_set (found0 : bool) s v :
  wf s -> NoDup (members s) -> In v (members s) ->
  exists s', remove indet found0 s v = Ok (s', true) /\
    NoDup (members s') /\ ~ In v (members s') /\
    forall x, In x (members s') <-> In x (members s) /\ x <> v.
Proof.
  intros Hwf Hnodup Hin.
  destruct (remove_result found0 s v Hwf Hin)
    as (s' & l1 & l2 & Hrun & Hsplit & _ & Hrest & _).
  rewrite Hsplit in Hnodup.
  apply NoDup_ListNoDup, List.NoDup_remove in Hnodup as [Hnd Hgone].
  exists s'. rewrite Hrest, Hsplit. split; [done|].
  split; [by apply NoDup_ListNoDup|]. split; [done|].
  intros x. rewrite !in_app_iff. cbn [In]. split.
  - intros Hx. split; [tauto|]. intros ->. apply Hgone, in_app_iff, Hx.
  - intros [[|[|]] Hne]; auto. done.
Qed.

(** What [resize] does to a well-formed set. *)
Lemma intset_resize_result s new_capacity :
  wf s ->
  exists s', resize DEFAULT_CAPACITY indet s new_capacity = Ok s' /\
    members s' = members s /\ used s' = used s /\
    capacity s' = Z.max (Z.max new_capacity (used s)) DEFAULT_CAPACITY /\
    wf s'.
Proof.
  intros ((Hu0 & Hu) & Hcap). unfold resize.
  set (nc := if (if _ <? _ then _ else _) <? DEFAULT_CAPACITY then _ else _).
  assert (Hnc : nc = Z.max (Z.max new_capacity (used s)) DEFAULT_CAPACITY).
  { subst nc. destruct (Z.ltb_spec new_capacity (used s));
      [destruct (Z.ltb_spec (used s) DEFAULT_CAPACITY)
      |destruct (Z.ltb_spec new_capacity DEFAULT_CAPACITY)]; lia. }
  rewrite new_array_ok by lia. cbn [bind].
  destruct (copy_cells_inside indet (Z.to_nat (used s)) 0 (data s)
              (replicate (Z.to_nat nc) indet))
    as (dst & Hrun & Hlen & Hcells);
    [lia|unfold Arr.allocated; rewrite length_replicate; lia|].
  rewrite Hrun. cbn [bind]. rewrite length_replicate in Hlen.
  eexists. split; [done|]. unfold members, wf, Arr.allocated in *.
  cbn [data used capacity]. repeat split; try done; try lia.
  apply take_agree; [lia|lia|].
  intros k Hk. rewrite Hcells. case_decide; [|lia].
  rewrite <- (Nat2Z.id k) at 2. symmetry. apply (lookup_load indet).
  unfold Arr.allocated. lia.
Qed.

(** X19.  [resize] keeps the members; the capacity becomes the requested
    one, but not less than the number of members and not less than
    [DEFAULT_CAPACITY]. *)
Theorem intset_resize_keeps_the_members s new_capacity :
  wf s ->
  exists s', resize DEFAULT_CAPACITY indet s new_capacity = Ok s' /\
    members s' = members s /\ size s' = size s /\
    capacity s' = Z.max (Z.max new_capacity (used s)) DEFAULT_CAPACITY /\
    wf s'.
Proof. apply intset_resize_result. Qed.

(** What [add] does to a well-formed set with at least one cell. *)
Lemma add_result (found0 : bool) s anInt :
  wf s -> 1 <= capacity s ->
  exists s', add DEFAULT_CAPACITY indet found0 s anInt = Ok (s', true) /\
    members s' = members s ++ [anInt] /\ used s' = used s + 1 /\
    capacity s' =
      (if (0 <? used s) && (capacity s <=? used s)
       then Z.max (Z.quot (3 * capacity s) 2 + 1) DEFAULT_CAPACITY
       else capacity s) /\
    wf s'.
Proof.
  intros Hwf Hroom. pose proof Hwf as ((Hu0 & Hu) & Hcap).
  unfold add, isEmpty, size.
  destruct (Z.eqb_spec (used s) 0) as [Hempty|Hne].
  - rewrite Hempty. cbn [Z.ltb Z.compare andb].
    rewrite store_inside by (unfold Arr.allocated in *; lia). cbn [bind].
    eexists. split; [done|]. unfold members, wf, Arr.allocated in *.
    cbn [data used capacity]. rewrite length_insert, Hempty.
    repeat split; try lia.
    change (Z.to_nat (0 + 1)) with 1%nat. change (Z.to_nat 0) with 0%nat.
    apply (take_snoc_insert (data s)); [lia|lia|done].
  - destruct (Z.ltb_spec 0 (used s)) as [_|]; [|lia]. cbn [andb].
    destruct (Z.leb_spec (capacity s) (used s)) as [Hfull|Hfree].
    + destruct (intset_resize_result s (Z.quot (3 * capacity s) 2 + 1) Hwf)
        as (s1 & Hrun & Hmem & Hu1 & Hcap1 & (Hu1' & Hcells1)).
      rewrite Hrun. cbn [bind].
      assert (Hq : used s < Z.quot (3 * capacity s) 2 + 1).
      { rewrite Z.quot_div_nonneg by lia.
        assert (capacity s <= 3 * capacity s / 2)
          by (apply Z.div_le_lower_bound; lia).
        lia. }
      rewrite store_inside by (unfold Arr.allocated in *; lia). cbn [bind].
      eexists. split; [done|]. unfold members, wf, Arr.allocated in *.
      cbn [data used capacity]. rewrite length_insert, Hu1.
      repeat split; try lia.
      replace (Z.to_nat (used s + 1)) with (S (Z.to_nat (used s))) by lia.
      rewrite <- Hmem, Hu1.
      apply take_snoc_insert; [lia|lia|done].
    + cbn [bind].
      rewrite store_inside by (unfold Arr.allocated in *; lia). cbn [bind].
      eexists. split; [done|]. unfold members, wf, Arr.allocated in *.
      cbn [data used capacity]. rewrite length_insert.
      repeat split; try lia.
      replace (Z.to_nat (used s + 1)) with (S (Z.to_nat (used s))) by lia.
      apply take_snoc_insert; [lia|lia|done].
Qed.

(** X18.  [add] never stores outside the array and keeps the
    representation well formed: it answers [true] and puts the value in
    [data[used]] whether or not the value is a member already.  A full
    array of a non-empty set is first replaced by one of
    [int(1.5 * capacity) + 1] cells, or [DEFAULT_CAPACITY] if that is more;
    otherwise the capacity stays. *)
Theorem add_always_appends (found0 : bool) s anInt :
  wf s -> 1 <= capacity s ->
  exists s', add DEFAULT_CAPACITY indet found0 s anInt = Ok (s', true) /\
    members s' = members s ++ [anInt] /\ size s' = size s + 1 /\
    capacity s' =
      (if (0 <? used s) && (capacity s <=? used s)
       then Z.max (Z.quot (3 * capacity s) 2 + 1) DEFAULT_CAPACITY
       else capacity s) /\
    wf s'.
Proof. apply add_result. Qed.

Lemma snoc_split_unique (l l1 l2 : list Z) v :
  l ++ [v] = l1 ++ v :: l2 -> ~ In v l -> ~ In v l1 -> l1 = l /\ l2 = [].
Proof.
  revert l1. induction l as [|x l IH]; intros [|y l1] Heq Hl Hl1; cbn in *.
  - by injection Heq as <-.
  - injection Heq as <- Heq. tauto.
  - injection Heq as -> Heq. tauto.
  - injection Heq as <- Heq. destruct (IH l1 Heq) as [-> ->]; [tauto..|done].
Qed.

(** X17.  [add] of a value that is not a member, followed by [remove] of
    that value, gives back the members the set had, in their order (the
    capacity may have grown on the way). *)
Theorem add_then_remove_restores (found0 : bool) s v :
  wf s -> 1 <= capacity s -> ~ In v (members s) ->
  exists s1 s2, add DEFAULT_CAPACITY indet found0 s v = Ok (s1, true) /\
    remove indet found0 s1 v = Ok (s2, true) /\
    members s2 = members s /\ size s2 = size s.
Proof.
  intros Hwf Hroom Hnew.
  destruct (add_result found0 s v Hwf Hroom)
    as (s1 & Hadd & Hmem1 & Hu1 & _ & Hwf1).
  destruct (remove_result found0 s1 v Hwf1)
    as (s2 & l1 & l2 & Hrem & Hsplit & Hl1 & Hmem2 & Hu2 & _).
  { rewrite Hmem1. apply in_or_app. right. by left. }
  rewrite Hmem1 in Hsplit.
  destruct (snoc_split_unique _ _ _ _ Hsplit Hnew Hl1) as [-> ->].
  exists s1, s2. rewrite app_nil_r in Hmem2. unfold size.
  repeat split; try done. lia.
Qed.

(** X20.  The copy constructor and [operator=] build a set with the
    members, the size and the capacity of their argument; what the target
    of the assignment held before plays no part. *)
Theorem copies_have_the_members_of_the_source this src :
  wf src ->
  (exists s', copy_ctor indet src = Ok s' /\
     members s' = members src /\ size s' = size src /\
     capacity s' = capacity src /\ wf s') /\
  (exists s', assign indet this src = Ok s' /\
     members s' = members src /\ size s' = size src /\
     capacity s' = capacity src /\ wf s').
Proof.
  intros ((Hu0 & Hu) & Hcap).
  assert (Hcopy : exists d,
            (d0 <- Arr.new_array indet (capacity src) ;;
             Arr.copy_cells indet (Z.to_nat (used src)) 0 (data src) d0) = Ok d /\
            length d = Z.to_nat (capacity src) /\
            take (Z.to_nat (used src)) d = take (Z.to_nat (used src)) (data src)).
  { rewrite new_array_ok by lia. cbn [bind].
    destruct (copy_cells_inside indet (Z.to_nat (used src)) 0 (data src)
                (replicate (Z.to_nat (capacity src)) indet))
      as (dst & Hrun & Hlen & Hcells);
      [lia|unfold Arr.allocated; rewrite length_replicate; lia|].
    rewrite length_replicate in Hlen. exists dst. repeat split; try done.
    unfold Arr.allocated in *. apply take_agree; [lia|lia|].
    intros k Hk. rewrite Hcells. case_decide; [|lia].
    rewrite <- (Nat2Z.id k) at 2. symmetry. apply (lookup_load indet).
    unfold Arr.allocated. lia. }
  destruct Hcopy as (d & Hrun & Hlen & Htake).
  split; exists (Build d (used src) (capacity src)).
  - unfold copy_ctor.
    destruct (Arr.new_array indet (capacity src)) as [d0|f]; [|done].
    cbn [bind] in *. rewrite Hrun. cbn [bind].
    unfold members, size, wf, Arr.allocated. cbn [data used capacity].
    repeat split; try done; lia.
  - unfold assign.
    destruct (Arr.new_array indet (capacity src)) as [d0|f]; [|done].
    cbn [bind] in *. rewrite Hrun. cbn [bind].
    unfold members, size, wf, Arr.allocated. cbn [data used capacity].
    repeat split; try done; lia.
Qed.

(** The inner loop of [intersect] at row [i]: the values of the other
    set that equal [data[i]] go, one after the other, into the cells from
    [foundAlike] on; when those cells run out, a store goes astray. *)
Lemma intersect_inner_run n : forall j i s t (pre rest : list Z),
  0 <= j -> j + Z.of_nat n <= Arr.allocated (data t) ->
  intersect_inner indet n j i s t (pre ++ rest, Z.of_nat (length pre)) =
    let l := List.filter (Z.eqb (Arr.load indet (data s) i))
               (take n (drop (Z.to_nat j) (data t))) in
    if decide (length l <= length rest)%nat
    then Ok ((pre ++ l) ++ drop (length l) rest, Z.of_nat (length (pre ++ l)))
    else Fault (StrayStore (Z.of_nat (length (pre ++ rest)))
                           (Z.of_nat (length (pre ++ rest)))).
Proof.
  induction n as [|n IH]; intros j i s t pre rest Hj Hn.
  - cbn. by rewrite app_nil_r, drop_0.
  - cbn [intersect_inner].
    pose proof (lookup_load indet (data t) j ltac:(lia)) as Hcell.
    rewrite (drop_S _ _ _ Hcell). cbn [take List.filter].
    replace (S (Z.to_nat j)) with (Z.to_nat (j + 1)) by lia.
    specialize (IH (j + 1) i s t).
    destruct (Arr.load indet (data s) i =? Arr.load indet (data t) j);
      [|apply IH; lia].
    destruct rest as [|r rest].
    + rewrite store_outside
        by (unfold Arr.allocated; rewrite app_nil_r; lia).
      cbn [bind length]. case_decide; [lia|].
      unfold Arr.allocated. by rewrite app_nil_r.
    + rewrite store_inside
        by (unfold Arr.allocated; rewrite length_app; cbn [length]; lia).
      cbn [bind]. rewrite Nat2Z.id.
      replace (length pre) with (length pre + 0)%nat at 1 by lia.
      rewrite insert_app_r. cbn [insert list_insert].
      replace (pre ++ Arr.load indet (data t) j :: rest)
        with ((pre ++ [Arr.load indet (data t) j]) ++ rest)
        by (by rewrite <- app_assoc).
      replace (Z.of_nat (length pre) + 1)
        with (Z.of_nat (length (pre ++ [Arr.load indet (data t) j])))
        by (rewrite length_app; cbn [length]; lia).
      rewrite IH by lia. cbn zeta. cbn [length drop].
      repeat case_decide; try lia.
      * rewrite <- !app_assoc. cbn [app]. rewrite ?length_app. cbn [length].
        rewrite ?length_app. cbn [length]. do 2 f_equal; lia.
      * rewrite ?length_app. cbn [length]. rewrite ?length_app. cbn [length].
        do 2 f_equal; lia.
Qed.

(** The outer loop of [intersect]. *)
Lemma intersect_outer_run n : forall i s t (pre rest : list Z),
  0 <= i -> i + Z.of_nat n <= Arr.allocated (data s) ->
  0 <= used t <= Arr.allocated (data t) ->
  intersect_outer indet n i s t (pre ++ rest, Z.of_nat (length pre)) =
    let l := flat_map (fun x => List.filter (Z.eqb x) (members t))
               (take n (drop (Z.to_nat i) (data s))) in
    if decide (length l <= length rest)%nat
    then Ok ((pre ++ l) ++ drop (length l) rest, Z.of_nat (length (pre ++ l)))
    else Fault (StrayStore (Z.of_nat (length (pre ++ rest)))
                           (Z.of_nat (length (pre ++ rest)))).
Proof.
  induction n as [|n IH]; intros i s t pre rest Hi Hn Ht.
  - cbn. by rewrite app_nil_r, drop_0.
  - cbn [intersect_outer].
    pose proof (lookup_load indet (data s) i ltac:(lia)) as Hcell.
    rewrite (drop_S _ _ _ Hcell). cbn [take flat_map].
    replace (S (Z.to_nat i)) with (Z.to_nat (i + 1)) by lia.
    rewrite intersect_inner_run by lia. cbn zeta.
    change (take (Z.to_nat (used t)) (drop (Z.to_nat 0) (data t)))
      with (members t).
    set (lx := List.filter _ (members t)).
    specialize (IH (i + 1) s t (pre ++ lx) (drop (length lx) rest)).
    rewrite (length_app lx).
    destruct (decide (length lx <= length rest)%nat) as [Hfit|Hover].
    + cbn [bind]. rewrite IH by lia. cbn zeta.
      rewrite length_drop, drop_drop.
      repeat case_decide; try lia.
      * rewrite <- !app_assoc. rewrite ?length_app. do 2 f_equal; lia.
      * rewrite ?length_app, ?length_drop. do 2 f_equal; lia.
    + cbn [bind]. case_decide; [lia|done].
Qed.

(** On a set without duplicates, the values equal to [x] are [x] itself
    or nothing. *)
Lemma filter_eqb_nodup (l : list Z) x :
  NoDup l ->
  List.filter (Z.eqb x) l = if existsb (Z.eqb x) l then [x] else [].
Proof.
  induction l as [|y l IH]; [done|]. intros Hnd.
  inversion Hnd as [|? ? Hy Hnd']; subst. cbn [List.filter existsb].
  destruct (Z.eqb_spec x y) as [->|Hne]; cbn [orb].
  - rewrite IH by done.
    destruct (existsb (Z.eqb y) l) eqn:Hex; [|done].
    apply existsb_exists in Hex as (z & Hz & Heq).
    apply Z.eqb_eq in Heq as <-. by apply list_elem_of_In in Hz.
  - by apply IH.
Qed.

Lemma flat_map_filter (b : Z -> bool) (l : list Z) :
  flat_map (fun x => if b x then [x] else []) l = List.filter b l.
Proof.
  induction l as [|x l IH]; [done|]. cbn. rewrite IH. by destruct (b x).
Qed.

(** The values [intersect] collects: the members of the receiver that
    are members of the other set, in the order of the receiver. *)
Lemma common_members s t :
  NoDup (members t) ->
  flat_map (fun x => List.filter (Z.eqb x) (members t)) (members s) =
    List.filter (fun x => existsb (Z.eqb x) (members t)) (members s).
Proof.
  intros Hnd. rewrite <- flat_map_filter.
  apply flat_map_ext. intros x. by apply filter_eqb_nodup.
Qed.

(** What [intersect] does with well-formed sets. *)
Lemma intersect_result s t :
  wf s -> wf t -> 0 <= DEFAULT_CAPACITY ->
  intersect DEFAULT_CAPACITY indet s t =
    let l := flat_map (fun x => List.filter (Z.eqb x) (members t)) (members s) in
    if decide (Z.of_nat (length l) <= DEFAULT_CAPACITY)
    then Ok (Build (l ++ replicate (Z.to_nat DEFAULT_CAPACITY - length l) indet)
                   (Z.of_nat (length l)) DEFAULT_CAPACITY)
    else Fault (StrayStore DEFAULT_CAPACITY DEFAULT_CAPACITY).
Proof.
  intros ((Hu0 & Hu) & Hcap) ((Ht0 & Ht) & Hcapt) HD.
  unfold intersect. rewrite ctor_default_ok by done. cbn [bind].
  unfold isEmpty, size, set_used. cbn [data used capacity].
  destruct (Z.eqb_spec (used t) 0) as [Hempty|Hne].
  - assert (members t = []) as -> by (unfold members; by rewrite Hempty).
    assert (Hnone : forall l : list Z,
              flat_map (fun x => List.filter (Z.eqb x) []) l = [])
      by (induction l; done).
    cbn zeta. rewrite Hnone. cbn [length app]. case_decide; [|lia].
    by rewrite Hempty, Nat.sub_0_r.
  - change (replicate (Z.to_nat DEFAULT_CAPACITY) indet, 0)
      with ([] ++ replicate (Z.to_nat DEFAULT_CAPACITY) indet,
            Z.of_nat (length (@nil Z))).
    rewrite intersect_outer_run by (unfold Arr.allocated in *; lia).
    cbn zeta. change (take (Z.to_nat (used s)) (drop (Z.to_nat 0) (data s)))
      with (members s).
    set (l := flat_map _ (members s)).
    rewrite length_replicate. cbn [app].
    repeat case_decide; try lia; cbn [bind].
    + by rewrite drop_replicate.
    + rewrite length_replicate. do 2 f_equal; lia.
Qed.

(** X23.  [intersect] of two well-formed sets, the other one without
    duplicates: when the common members fit into [DEFAULT_CAPACITY] cells,
    the result holds exactly the members of the receiver that are members
    of the other set, in the order they have in the receiver. *)
Theorem intersect_collects_the_common_members s t :
  wf s -> wf t -> NoDup (members t) ->
  Z.of_nat (length (List.filter (fun x => existsb (Z.eqb x) (members t))
                      (members s))) <= DEFAULT_CAPACITY ->
  exists r, intersect DEFAULT_CAPACITY indet s t = Ok r /\
    members r = List.filter (fun x => existsb (Z.eqb x) (members t)) (members s) /\
    size r = Z.of_nat (length (members r)) /\
    capacity r = DEFAULT_CAPACITY /\ wf r.
Proof.
  intros Hwf Hwft Hnd Hfit.
  rewrite intersect_result by (done || lia). cbn zeta.
  rewrite common_members by done.
  set (l := List.filter _ (members s)) in *.
  case_decide; [|lia]. eexists. split; [done|].
  unfold members, size, wf, Arr.allocated. cbn [data used capacity].
  rewrite Nat2Z.id, take_app_length, length_app, length_replicate.
  repeat split; try done; lia.
Qed.

(** X24.  [intersect] never grows the array of its result: when the two
    sets have more common members than [DEFAULT_CAPACITY], the store of the
    first one that does not fit goes to index [DEFAULT_CAPACITY], just past
    the array. *)
Theorem intersect_overflows_the_default_array s t :
  wf s -> wf t -> NoDup (members t) ->
  0 <= DEFAULT_CAPACITY <
    Z.of_nat (length (List.filter (fun x => existsb (Z.eqb x) (members t))
                        (members s))) ->
  intersect DEFAULT_CAPACITY indet s t =
    Fault (StrayStore DEFAULT_CAPACITY DEFAULT_CAPACITY).
Proof.
  intros Hwf Hwft Hnd Hover.
  rewrite intersect_result by (done || lia). cbn zeta.
  rewrite common_members by done. case_decide; [lia|done].
Qed.

(** [isSubsetOf] answers [true] when every member of the receiver is a
    member of the other set and the receiver is not the larger one,
    whatever the unset locals held. *)
Lemma isSubsetOf_of_included (found0 isSubset0 : bool) s t :
  wf s -> used s <= used t ->
  (forall x, In x (members s) -> In x (members t)) ->
  isSubsetOf indet found0 isSubset0 s t = true.
Proof.
  intros Hwf Hle Hincl. pose proof Hwf as ((Hu0 & _) & _).
  destruct (decide (used s = 0)) as [Hempty|Hne].
  - unfold isSubsetOf, isEmpty, size. by rewrite Hempty.
  - apply isSubsetOf_asks_contains; [done|lia|done|].
    intros x Hin. by apply contains_member, Hincl.
Qed.

(** X21.  [operator==] answers [true] for two well-formed sets with the
    same elements in any order, so in particular for a set and itself; the
    unset locals play no part in this case. *)
Theorem operator_eq_of_equal_contents (found0 isSubset0 same0 : bool) a b :
  wf a -> wf b -> Permutation (members a) (members b) ->
  operator_eq indet found0 isSubset0 same0 a b = true.
Proof.
  intros Hwfa Hwfb Hperm.
  assert (Hsize : used a = used b).
  { apply Permutation_length in Hperm.
    rewrite !members_length in Hperm by done.
    destruct Hwfa as ((? & _) & _), Hwfb as ((? & _) & _). lia. }
  unfold operator_eq, size. destruct (isEmpty a && isEmpty b); [done|].
  rewrite Hsize, Z.eqb_refl. cbn [negb].
  rewrite !isSubsetOf_of_included; try done; try lia.
  - intros x. apply Permutation_in. by symmetry.
  - intros x. by apply Permutation_in.
Qed.


(** What [operator=] does with a well-formed argument. *)
Lemma intset_assign_result this rhs :
  wf rhs ->
  exists r, assign indet this rhs = Ok r /\
    members r = members rhs /\ used r = used rhs /\
    capacity r = capacity rhs /\ wf r.
Proof.
  intros ((Hu0 & Hu) & Hcap). unfold assign.
  rewrite new_array_ok by lia. cbn [bind].
  destruct (copy_cells_inside indet (Z.to_nat (used rhs)) 0 (data rhs)
              (replicate (Z.to_nat (capacity rhs)) indet))
    as (dst & Hrun & Hlen & Hcells);
    [lia|unfold Arr.allocated; rewrite length_replicate; lia|].
  rewrite length_replicate in Hlen. rewrite Hrun. cbn [bind].
  eexists. split; [done|]. unfold members, wf, Arr.allocated in *.
  cbn [data used capacity]. repeat split; try done; try lia.
  apply take_agree; [lia|lia|].
  intros k Hk. rewrite Hcells. case_decide; [|lia].
  rewrite <- (Nat2Z.id k) at 2. symmetry. apply (lookup_load indet).
  unfold Arr.allocated. lia.
Qed.

(** The loops of [subtract] when no element of [diff] equals an element
    of the other set: nothing is removed. *)
Lemma subtract_inner_no_match (found0 : bool) n : forall j i diff t,
  0 <= j ->
  (forall k : nat, j <= Z.of_nat k < j + Z.of_nat n ->
     Arr.load indet (data diff) i <> Arr.load indet (data t) (Z.of_nat k)) ->
  subtract_inner indet found0 n j i diff t = Ok diff.
Proof.
  induction n as [|n IH]; intros j i diff t Hj Hmiss; cbn [subtract_inner];
    [done|].
  destruct (Z.eqb_spec (Arr.load indet (data diff) i)
              (Arr.load indet (data t) j)) as [Heq|_].
  - exfalso. apply (Hmiss (Z.to_nat j)); [lia|]. by rewrite Z2Nat.id by lia.
  - apply IH; [lia|]. intros k Hk. apply Hmiss. lia.
Qed.

Lemma subtract_outer_no_match (found0 : bool) budget : forall i diff t,
  0 <= i -> used diff - i <= Z.of_nat budget ->
  (forall m k : nat, i <= Z.of_nat m < used diff -> Z.of_nat k < used t ->
     Arr.load indet (data diff) (Z.of_nat m)
       <> Arr.load indet (data t) (Z.of_nat k)) ->
  subtract_outer indet found0 budget i diff t = Ok diff.
Proof.
  induction budget as [|budget IH]; intros i diff t Hi Hbudget Hmiss;
    cbn [subtract_outer]; destruct (Z.ltb_spec i (used diff)); try done; [lia|].
  rewrite subtract_inner_no_match; [|lia|].
  - cbn [bind]. apply IH; [lia|lia|]. intros m k Hm Hk. apply Hmiss; lia.
  - intros k Hk. specialize (Hmiss (Z.to_nat i) k).
    rewrite Z2Nat.id in Hmiss by lia. apply Hmiss; lia.
Qed.

(** What [subtract] does when the two sets share no member and the
    receiver fits into a default-constructed array. *)
Lemma subtract_disjoint_result (found0 : bool) s t :
  wf s -> wf t -> 0 <= DEFAULT_CAPACITY -> used s <= DEFAULT_CAPACITY ->
  (forall x, In x (members s) -> ~ In x (members t)) ->
  exists r, subtract DEFAULT_CAPACITY indet found0 s t = Ok r /\
    members r = members s /\ used r = used s /\
    capacity r = DEFAULT_CAPACITY /\ wf r.
Proof.
  intros Hwf Hwft HD Hfit Hdisjoint. pose proof Hwf as ((Hu0 & Hu) & Hcap).
  unfold subtract. rewrite ctor_default_ok by done. cbn [bind].
  unfold set_used. cbn [data used capacity].
  destruct (copy_cells_inside indet (Z.to_nat (used s)) 0 (data s)
              (replicate (Z.to_nat DEFAULT_CAPACITY) indet))
    as (d & Hrun & Hlen & Hcells);
    [lia|unfold Arr.allocated; rewrite length_replicate; lia|].
  rewrite length_replicate in Hlen. rewrite Hrun. cbn [bind].
  assert (Hresult : members (Build d (used s) DEFAULT_CAPACITY) = members s /\
                    wf (Build d (used s) DEFAULT_CAPACITY)).
  { unfold members, wf, Arr.allocated in *. cbn [data used capacity].
    repeat split; try lia.
    apply take_agree; [lia|lia|].
    intros k Hk. rewrite Hcells. case_decide; [|lia].
    rewrite <- (Nat2Z.id k) at 2. symmetry. apply (lookup_load indet).
    unfold Arr.allocated. lia. }
  destruct Hresult as [Hmem Hwfr].
  exists (Build d (used s) DEFAULT_CAPACITY).
  split; [|by do 3 (split; [done|])].
  destruct (isEmpty t); [done|].
  apply subtract_outer_no_match; cbn [data used]; [lia|lia|].
  intros m k Hm Hk Heq.
  apply (Hdisjoint (Arr.load indet d (Z.of_nat m))).
  - rewrite <- Hmem. apply (member_cell (Build d (used s) DEFAULT_CAPACITY));
      [done|cbn [used]; lia].
  - rewrite Heq. apply member_cell; [done|lia].
Qed.

(** X25.  [subtract] leaves the receiver as it is when no member of it is
    a member of the other set (so also when the other set is empty),
    provided the receiver fits into the [DEFAULT_CAPACITY] cells of the
    result. *)
Theorem subtract_of_disjoint_sets (found0 : bool) s t :
  wf s -> wf t -> 0 <= DEFAULT_CAPACITY -> used s <= DEFAULT_CAPACITY ->
  (forall x, In x (members s) -> ~ In x (members t)) ->
  exists r, subtract DEFAULT_CAPACITY indet found0 s t = Ok r /\
    members r = members s /\ size r = size s /\
    capacity r = DEFAULT_CAPACITY /\ wf r.
Proof. apply subtract_disjoint_result. Qed.

(** A filling loop of [unionWith]: the first [n] cells of the source from
    [i] on go into the cells from [counter] on; when those run out, a
    store goes astray. *)
Lemma union_fill_run n : forall i src (pre rest : list Z),
  0 <= i -> i + Z.of_nat n <= Arr.allocated (data src) ->
  union_fill indet n i src (pre ++ rest, Z.of_nat (length pre)) =
    if decide (n <= length rest)%nat
    then Ok ((pre ++ take n (drop (Z.to_nat i) (data src))) ++ drop n rest,
             Z.of_nat (length pre + n))
    else Fault (StrayStore (Z.of_nat (length (pre ++ rest)))
                           (Z.of_nat (length (pre ++ rest)))).
Proof.
  induction n as [|n IH]; intros i src pre rest Hi Hn.
  - cbn. by rewrite app_nil_r, drop_0, Nat.add_0_r.
  - cbn [union_fill].
    pose proof (lookup_load indet (data src) i ltac:(lia)) as Hcell.
    rewrite (drop_S _ _ _ Hcell). cbn [take].
    replace (S (Z.to_nat i)) with (Z.to_nat (i + 1)) by lia.
    specialize (IH (i + 1) src).
    destruct rest as [|r rest].
    + rewrite store_outside
        by (unfold Arr.allocated; rewrite app_nil_r; lia).
      cbn [bind length]. case_decide; [lia|].
      unfold Arr.allocated. by rewrite app_nil_r.
    + rewrite store_inside
        by (unfold Arr.allocated; rewrite length_app; cbn [length]; lia).
      cbn [bind]. rewrite Nat2Z.id.
      replace (length pre) with (length pre + 0)%nat at 1 by lia.
      rewrite insert_app_r. cbn [insert list_insert].
      replace (pre ++ Arr.load indet (data src) i :: rest)
        with ((pre ++ [Arr.load indet (data src) i]) ++ rest)
        by (by rewrite <- app_assoc).
      replace (Z.of_nat (length pre) + 1)
        with (Z.of_nat (length (pre ++ [Arr.load indet (data src) i])))
        by (rewrite length_app; cbn [length]; lia).
      rewrite IH by lia. cbn [length drop].
      repeat case_decide; try lia.
      * rewrite <- !app_assoc. cbn [app]. rewrite ?length_app. cbn [length].
        do 2 f_equal; lia.
      * rewrite ?length_app. cbn [length]. rewrite ?length_app. cbn [length].
        do 2 f_equal; lia.
Qed.

Lemma filter_eqb_none (l : list Z) x :
  ~ In x l -> List.filter (Z.eqb x) l = [].
Proof.
  induction l as [|y l IH]; [done|]. intros Hnot. cbn [List.filter].
  destruct (Z.eqb_spec x y) as [->|_]; [destruct Hnot; by left|].
  apply IH. intros Hin. apply Hnot. by right.
Qed.

Lemma flat_map_nothing (f : Z -> list Z) (l : list Z) :
  (forall x, In x l -> f x = []) -> flat_map f l = [].
Proof.
  induction l as [|x l IH]; [done|]. intros Hf. cbn [flat_map].
  rewrite (Hf x) by (by left). apply IH. intros y Hy. apply Hf. by right.
Qed.

(** [intersect] of two sets that share no member. *)
Lemma intersect_disjoint s t :
  wf s -> wf t -> 0 <= DEFAULT_CAPACITY ->
  (forall x, In x (members s) -> ~ In x (members t)) ->
  intersect DEFAULT_CAPACITY indet s t =
    Ok (Build (replicate (Z.to_nat DEFAULT_CAPACITY) indet) 0 DEFAULT_CAPACITY).
Proof.
  intros Hwf Hwft HD Hdisjoint. rewrite intersect_result by done. cbn zeta.
  rewrite flat_map_nothing
    by (intros x Hx; by apply filter_eqb_none, Hdisjoint).
  cbn [length app]. case_decide; [|lia]. by rewrite Nat.sub_0_r.
Qed.

Lemma fresh_set_wf :
  0 <= DEFAULT_CAPACITY ->
  wf (Build (replicate (Z.to_nat DEFAULT_CAPACITY) indet) 0 DEFAULT_CAPACITY).
Proof.
  intros. unfold wf, Arr.allocated. cbn [data used capacity].
  rewrite length_replicate. lia.
Qed.

(** X26.  [unionWith] of two well-formed sets that share no member and
    together fit into [DEFAULT_CAPACITY] cells gives the members of the
    receiver followed by the members of the other set. *)
Theorem unionWith_of_disjoint_sets (found0 : bool) s t :
  wf s -> wf t -> used s + used t <= DEFAULT_CAPACITY ->
  (forall x, In x (members s) -> ~ In x (members t)) ->
  exists r, unionWith DEFAULT_CAPACITY indet found0 s t = Ok r /\
    members r = members s ++ members t /\ size r = size s + size t /\
    capacity r = DEFAULT_CAPACITY /\ wf r.
Proof.
  intros Hwf Hwft Hfit Hdisjoint.
  pose proof Hwf as ((Hu0 & _) & _). pose proof Hwft as ((Ht0 & _) & _).
  assert (HD : 0 <= DEFAULT_CAPACITY) by lia.
  pose proof (fresh_set_wf HD) as Hfresh.
  set (fresh := Build (replicate (Z.to_nat DEFAULT_CAPACITY) indet) 0
                      DEFAULT_CAPACITY) in *.
  unfold unionWith. rewrite ctor_default_ok by done. fold fresh. cbn [bind].
  rewrite intersect_disjoint by done. fold fresh. cbn [bind].
  destruct (intset_assign_result fresh fresh Hfresh)
    as (r1 & Hrun1 & _ & Hu1 & _ & _).
  rewrite Hrun1. cbn [bind].
  destruct (subtract_disjoint_result found0 s t)
    as (ra & Hruna & Hma & Hua & Hca & Hwfa); try done; try lia.
  rewrite Hruna. cbn [bind].
  destruct (intset_assign_result fresh ra Hwfa)
    as (a & Hrun2 & Hma' & Hua' & Hca' & Hwfa').
  rewrite Hrun2. cbn [bind].
  destruct (subtract_disjoint_result found0 t s)
    as (rb & Hrunb & Hmb & Hub & Hcb & Hwfb); try done; try lia.
  { intros x Hx Hx'. by apply (Hdisjoint x). }
  rewrite Hrunb. cbn [bind].
  destruct (intset_assign_result fresh rb Hwfb)
    as (b & Hrun3 & Hmb' & Hub' & Hcb' & Hwfb').
  rewrite Hrun3. cbn [bind].
  unfold set_used. rewrite Hu1. subst fresh. cbn [data used capacity].
  change (Z.to_nat 0) with 0%nat. cbn [union_fill bind].
  pose proof (members_length a Hwfa') as Hla.
  pose proof (members_length b Hwfb') as Hlb.
  destruct Hwfa' as ((? & ?) & ?), Hwfb' as ((? & ?) & ?).
  change (replicate (Z.to_nat DEFAULT_CAPACITY) indet, 0)
    with ([] ++ replicate (Z.to_nat DEFAULT_CAPACITY) indet,
          Z.of_nat (length (@nil Z))).
  rewrite union_fill_run by lia. rewrite length_replicate.
  case_decide; [|lia]. cbn [bind app length Nat.add].
  change (take (Z.to_nat (used a)) (drop (Z.to_nat 0) (data a)))
    with (members a).
  rewrite <- Hla.
  rewrite union_fill_run by lia. rewrite length_drop, length_replicate.
  case_decide; [|lia]. cbn [bind fst].
  change (take (Z.to_nat (used b)) (drop (Z.to_nat 0) (data b)))
    with (members b).
  eexists. split; [done|].
  unfold members at 1, size, wf, Arr.allocated. cbn [data used capacity].
  rewrite Hma', Hma, Hmb', Hmb in *.
  rewrite !length_app, length_drop, length_drop, length_replicate.
  repeat split; try lia.
  apply take_app_length'. rewrite length_app. lia.
Qed.
(** [remove] on a well-formed set never faults: whatever the value and
    whatever [contains] answered, the outcome is a well-formed set in the
    same array whose members are the old ones with at most one taken out. *)
Lemma remove_any (found0 : bool) s v :
  wf s ->
  exists s' b, remove indet found0 s v = Ok (s', b) /\
    wf s' /\ capacity s' = capacity s /\ sublist (members s') (members s).
Proof.
  intros Hwf. destruct (In_dec Z.eq_dec v (members s)) as [Hin|Hnot].
  - destruct (remove_result found0 s v Hwf Hin)
      as (s' & l1 & l2 & Hrun & Hsplit & _ & Hrest & _ & Hcap & Hwf').
    exists s', true. split; [done|]. split; [done|]. split; [done|].
    rewrite Hsplit, Hrest. apply sublist_app; [done|]. by apply sublist_cons.
  - exists s, false. split; [|done]. unfold remove.
    destruct (negb (contains indet found0 s v) || isEmpty s); [done|].
    apply remove_search_misses; [|lia].
    intros k Hk Heq. apply Hnot. rewrite <- Heq.
    destruct Hwf as ((? & ?) & ?). apply member_cell; [done|lia].
Qed.

Lemma subtract_inner_any (found0 : bool) n : forall j i diff t,
  wf diff ->
  exists diff', subtract_inner indet found0 n j i diff t = Ok diff' /\
    wf diff' /\ capacity diff' = capacity diff /\
    sublist (members diff') (members diff).
Proof.
  induction n as [|n IH]; intros j i diff t Hwf; cbn [subtract_inner].
  - by exists diff.
  - destruct (_ =? _); [|apply IH; done].
    destruct (remove_any found0 diff (Arr.load indet (data diff) i) Hwf)
      as (diff1 & b & Hrun & Hwf1 & Hcap1 & Hsub1).
    rewrite Hrun. cbn [bind fst].
    destruct (IH (j + 1) i diff1 t Hwf1) as (diff' & Hrun' & Hwf' & Hcap' & Hsub').
    exists diff'. split; [done|]. split; [done|]. split; [congruence|].
    by etrans.
Qed.

Lemma subtract_outer_any (found0 : bool) budget : forall i diff t,
  wf diff -> used diff - i <= Z.of_nat budget ->
  exists diff', subtract_outer indet found0 budget i diff t = Ok diff' /\
    wf diff' /\ capacity diff' = capacity diff /\
    sublist (members diff') (members diff).
Proof.
  induction budget as [|budget IH]; intros i diff t Hwf Hbudget;
    cbn [subtract_outer]; destruct (Z.ltb_spec i (used diff));
    try (by exists diff); [lia|].
  destruct (subtract_inner_any found0 (Z.to_nat (used t)) 0 i diff t Hwf)
    as (diff1 & Hrun & Hwf1 & Hcap1 & Hsub1).
  rewrite Hrun. cbn [bind].
  assert (used diff1 <= used diff).
  { apply sublist_length in Hsub1. rewrite !members_length in Hsub1 by done.
    destruct Hwf as ((? & ?) & ?), Hwf1 as ((? & ?) & ?). lia. }
  destruct (IH (i + 1) diff1 t Hwf1 ltac:(lia))
    as (diff' & Hrun' & Hwf' & Hcap' & Hsub').
  exists diff'. split; [done|]. split; [done|]. split; [congruence|].
  by etrans.
Qed.

(** What [subtract] gives on any pair of sets, as long as the receiver
    fits the default array. *)
Lemma subtract_fitting_result (found0 : bool) s t :
  wf s -> 0 <= DEFAULT_CAPACITY -> used s <= DEFAULT_CAPACITY ->
  exists r, subtract DEFAULT_CAPACITY indet found0 s t = Ok r /\
    wf r /\ capacity r = DEFAULT_CAPACITY /\
    sublist (members r) (members s).
Proof.
  intros Hwf HD Hfit. pose proof Hwf as ((Hu0 & Hu) & Hcap).
  unfold subtract. rewrite ctor_default_ok by done. cbn [bind].
  unfold set_used. cbn [data used capacity].
  destruct (copy_cells_inside indet (Z.to_nat (used s)) 0 (data s)
              (replicate (Z.to_nat DEFAULT_CAPACITY) indet))
    as (dst & Hrun & Hlen & Hcells);
    [lia|unfold Arr.allocated; rewrite length_replicate; lia|].
  rewrite length_replicate in Hlen.
  assert (Hmem : take (Z.to_nat (used s)) dst = members s).
  { unfold members. apply list_eq. intros k.
    destruct (decide (k < Z.to_nat (used s))%nat) as [Hk|Hk].
    - rewrite !lookup_take_lt by done.
      rewrite Hcells. case_decide; [|lia].
      unfold Arr.allocated in Hcap.
      destruct (lookup_lt_is_Some_2 (data s) k ltac:(lia)) as [x Hx].
      rewrite Hx. f_equal. unfold Arr.load.
      rewrite Nat2Z.id. destruct (Z.ltb_spec (Z.of_nat k) 0); [lia|].
      by rewrite Hx.
    - by rewrite !lookup_take_ge by lia. }
  assert (Hwfd : wf (Build dst (used s) DEFAULT_CAPACITY)).
  { unfold wf, Arr.allocated. cbn [data used capacity]. lia. }
  rewrite Hrun. destruct (isEmpty t); cbn [bind].
  - eexists. split; [done|]. split; [done|]. split; [done|].
    unfold members at 1. cbn [data used]. by rewrite Hmem.
  - destruct (subtract_outer_any found0 (Z.to_nat (used s)) 0
                (Build dst (used s) DEFAULT_CAPACITY) t Hwfd)
      as (r & Hrun' & Hwfr & Hcapr & Hsubr); [cbn [used]; lia|].
    cbn [used]. rewrite Hrun'. exists r. split; [done|]. split; [done|].
    split; [done|]. unfold members at 2 in Hsubr. cbn [data used] in Hsubr.
    by rewrite Hmem in Hsubr.
Qed.

Lemma subtract_overflow_result (found0 : bool) s t :
  0 <= DEFAULT_CAPACITY < used s ->
  subtract DEFAULT_CAPACITY indet found0 s t =
    Fault (StrayStore DEFAULT_CAPACITY DEFAULT_CAPACITY).
Proof.
  intros HD.
  assert (Hcells : Arr.allocated (replicate (Z.to_nat DEFAULT_CAPACITY) indet)
                   = DEFAULT_CAPACITY)
    by (unfold Arr.allocated; rewrite length_replicate; lia).
  unfold subtract. rewrite ctor_default_ok by lia. cbn [bind].
  unfold set_used. cbn [data used capacity].
  rewrite copy_cells_overflow; rewrite Hcells; [|lia|lia].
  by destruct (isEmpty t).
Qed.

(** X27.  [subtract] on any pair of sets, the receiver well-formed and
    with at most [DEFAULT_CAPACITY] members: the call finishes without a
    stray store, and gives a well-formed set in an array of
    [DEFAULT_CAPACITY] cells whose members are members of the receiver, in
    the order they have there. *)
Theorem subtract_that_fits_gives_a_part_of_the_receiver (found0 : bool) s t :
  wf s -> 0 <= DEFAULT_CAPACITY -> used s <= DEFAULT_CAPACITY ->
  exists r, subtract DEFAULT_CAPACITY indet found0 s t = Ok r /\
    wf r /\ capacity r = DEFAULT_CAPACITY /\
    sublist (members r) (members s) /\ size r <= size s.
Proof.
  intros Hwf HD Hfit.
  destruct (subtract_fitting_result found0 s t Hwf HD Hfit)
    as (r & Hrun & Hwfr & Hcap & Hsub).
  exists r. split; [done|]. split; [done|]. split; [done|]. split; [done|].
  apply sublist_length in Hsub. rewrite !members_length in Hsub by done.
  destruct Hwf as ((? & ?) & ?), Hwfr as ((? & ?) & ?). unfold size. lia.
Qed.

(** X28.  [subtract] with a receiver of more than [DEFAULT_CAPACITY]
    members, whatever the argument: the copy of the receiver into the
    default-constructed [diff] stores past its array. *)
Theorem subtract_overflows_the_default_array (found0 : bool) s t :
  0 <= DEFAULT_CAPACITY < used s ->
  subtract DEFAULT_CAPACITY indet found0 s t =
    Fault (StrayStore DEFAULT_CAPACITY DEFAULT_CAPACITY).
Proof. apply subtract_overflow_result. Qed.

(** X29.  [unionWith] when one of the two well-formed sets has more than
    [DEFAULT_CAPACITY] members: one of the three helper calls stores past
    its default-constructed array, at index [DEFAULT_CAPACITY]. *)
Theorem unionWith_overflows_the_default_array (found0 : bool) s t :
  wf s -> wf t -> 0 <= DEFAULT_CAPACITY ->
  DEFAULT_CAPACITY < used s \/ DEFAULT_CAPACITY < used t ->
  unionWith DEFAULT_CAPACITY indet found0 s t =
    Fault (StrayStore DEFAULT_CAPACITY DEFAULT_CAPACITY).
Proof.
  intros Hwf Hwft HD Hbig.
  unfold unionWith. rewrite !ctor_default_ok by done. cbn [bind].
  rewrite (intersect_result s t Hwf Hwft HD). cbv zeta.
  case_decide as Hfits; [|done]. cbn [bind].
  match goal with |- context [assign indet ?this ?rhs] =>
    destruct (intset_assign_result this rhs) as (ri & Hri & _)
  end.
  { unfold wf, Arr.allocated. cbn [data used capacity].
    rewrite length_app, length_replicate. lia. }
  rewrite Hri. cbn [bind].
  destruct (Z.le_gt_cases (used s) DEFAULT_CAPACITY) as [Hfit|Hover];
    [|by rewrite subtract_overflow_result by lia].
  destruct (subtract_fitting_result found0 s t Hwf HD Hfit)
    as (ra & Hra & Hwfa & _).
  rewrite Hra. cbn [bind].
  destruct (intset_assign_result
              (Build (replicate (Z.to_nat DEFAULT_CAPACITY) indet) 0 DEFAULT_CAPACITY)
              ra Hwfa) as (ra' & Hra' & _).
  rewrite Hra'. cbn [bind].
  by rewrite subtract_overflow_result by lia.
Qed.

End IntSetOperations.

(** * The further theorems at the objects of the scenarios *)

Ltac by_evaluation :=
  repeat split; vm_compute; first [reflexivity | (let H := fresh in intro H; discriminate H)].

Lemma insert_puts_entry_before_cursor_567 :
  Sequence.wf Samples.seq_567 /\
  Sequence.grown (Sequence.capacity Samples.seq_567) < Sequence.SIZE_MOD /\
  exists s', Sequence.insert 0 Samples.seq_567 9 = Ok s' /\
    Sequence.items s' = [5; 9; 6; 7] /\ Sequence.current 0 s' = Ok 9.
Proof.
  assert (Hwf : Sequence.wf Samples.seq_567) by by_evaluation.
  assert (Hgrown : Sequence.grown (Sequence.capacity Samples.seq_567)
                   < Sequence.SIZE_MOD) by by_evaluation.
  split; [exact Hwf|]. split; [exact Hgrown|].
  destruct (insert_puts_entry_before_cursor 0 Samples.seq_567 9 Hwf Hgrown)
    as (s' & Hrun & Hitems & _ & Hcurrent & _).
  exists s'. split; [exact Hrun|]. split; [exact Hitems|exact Hcurrent].
Defined.

Lemma attach_puts_entry_after_cursor_567 :
  Sequence.wf Samples.seq_567 /\
  Sequence.grown (Sequence.capacity Samples.seq_567) < Sequence.SIZE_MOD /\
  exists s', Sequence.attach 0 Samples.seq_567 9 = Ok s' /\
    Sequence.items s' = [5; 6; 9; 7] /\ Sequence.current 0 s' = Ok 9.
Proof.
  assert (Hwf : Sequence.wf Samples.seq_567) by by_evaluation.
  assert (Hgrown : Sequence.grown (Sequence.capacity Samples.seq_567)
                   < Sequence.SIZE_MOD) by by_evaluation.
  split; [exact Hwf|]. split; [exact Hgrown|].
  destruct (attach_puts_entry_after_cursor 0 Samples.seq_567 9 Hwf Hgrown)
    as (s' & Hrun & Hitems & _ & Hcurrent & _).
  exists s'. split; [exact Hrun|]. split; [exact Hitems|exact Hcurrent].
Defined.

Lemma insert_and_attach_stay_inside_the_array_567 :
  Sequence.wf Samples.seq_567 /\
  Sequence.grown (Sequence.capacity Samples.seq_567) < Sequence.SIZE_MOD /\
  (exists s' accesses, Sequence.insert 0 Samples.seq_567 9 = Ok s' /\
     Sequence.log s' = accesses ++ Sequence.log Samples.seq_567 /\
     Sequence.all_inside accesses) /\
  (exists s' accesses, Sequence.attach 0 Samples.seq_567 9 = Ok s' /\
     Sequence.log s' = accesses ++ Sequence.log Samples.seq_567 /\
     Sequence.all_inside accesses).
Proof.
  assert (Hwf : Sequence.wf Samples.seq_567) by by_evaluation.
  assert (Hgrown : Sequence.grown (Sequence.capacity Samples.seq_567)
                   < Sequence.SIZE_MOD) by by_evaluation.
  split; [exact Hwf|]. split; [exact Hgrown|].
  exact (insert_and_attach_stay_inside_the_array 0 Samples.seq_567 9 Hwf Hgrown).
Defined.

Lemma insert_then_remove_current_restores_567 :
  Sequence.wf Samples.seq_567 /\
  Sequence.grown (Sequence.capacity Samples.seq_567) < Sequence.SIZE_MOD /\
  exists s1 s2, Sequence.insert 0 Samples.seq_567 9 = Ok s1 /\
    Sequence.remove_current 0 s1 = Ok s2 /\
    Sequence.items s2 = [5; 6; 7] /\ Sequence.size s2 = 3 /\
    Sequence.current_index s2 = 1.
Proof.
  assert (Hwf : Sequence.wf Samples.seq_567) by by_evaluation.
  assert (Hgrown : Sequence.grown (Sequence.capacity Samples.seq_567)
                   < Sequence.SIZE_MOD) by by_evaluation.
  split; [exact Hwf|]. split; [exact Hgrown|].
  exact (insert_then_remove_current_restores 0 Samples.seq_567 9 Hwf Hgrown).
Defined.

Lemma attach_then_remove_current_restores_567 :
  Sequence.wf Samples.seq_567 /\
  Sequence.grown (Sequence.capacity Samples.seq_567) < Sequence.SIZE_MOD /\
  exists s1 s2, Sequence.attach 0 Samples.seq_567 9 = Ok s1 /\
    Sequence.remove_current 0 s1 = Ok s2 /\
    Sequence.items s2 = [5; 6; 7] /\ Sequence.size s2 = 3 /\
    Sequence.current_index s2 = 2.
Proof.
  assert (Hwf : Sequence.wf Samples.seq_567) by by_evaluation.
  assert (Hgrown : Sequence.grown (Sequence.capacity Samples.seq_567)
                   < Sequence.SIZE_MOD) by by_evaluation.
  split; [exact Hwf|]. split; [exact Hgrown|].
  exact (attach_then_remove_current_restores 0 Samples.seq_567 9 Hwf Hgrown).
Defined.

Lemma advance_moves_to_next_item_567 :
  Sequence.wf Samples.seq_567 /\ Sequence.is_item Samples.seq_567 = true /\
  Sequence.advance Samples.seq_567 = Ok (Sequence.set_current_index Samples.seq_567 2) /\
  Sequence.wf (Sequence.set_current_index Samples.seq_567 2) /\
  (Sequence.is_item (Sequence.set_current_index Samples.seq_567 2) = false <->
   Sequence.current_index Samples.seq_567 = Sequence.used Samples.seq_567 - 1).
Proof.
  assert (Hwf : Sequence.wf Samples.seq_567) by by_evaluation.
  split; [exact Hwf|]. split; [reflexivity|].
  exact (advance_moves_to_next_item Samples.seq_567 Hwf eq_refl).
Defined.

Lemma start_then_advances_visit_items_in_order_567 :
  Sequence.wf Samples.seq_567 /\ Z.of_nat 2 <= Sequence.used Samples.seq_567 /\
  Nat.iter 2 (fun r => s' <- r ;; Sequence.advance s') (Sequence.start Samples.seq_567)
    = Ok (Sequence.set_current_index Samples.seq_567 2) /\
  Sequence.current 0 (Sequence.set_current_index Samples.seq_567 2) = Ok 7.
Proof.
  assert (Hwf : Sequence.wf Samples.seq_567) by by_evaluation.
  assert (Hk : Z.of_nat 2 <= Sequence.used Samples.seq_567) by by_evaluation.
  split; [exact Hwf|]. split; [exact Hk|].
  destruct (start_then_advances_visit_items_in_order 0 Samples.seq_567 2 Hwf Hk)
    as (Hrun & Hcurrent & _).
  split; [exact Hrun|]. exact (Hcurrent 7 eq_refl).
Defined.

Lemma resize_keeps_the_items_567 :
  Sequence.wf Samples.seq_567 /\ 0 <= 10 < Sequence.SIZE_MOD /\
  exists s', Sequence.resize 0 Samples.seq_567 10 = Ok s' /\
    Sequence.items s' = [5; 6; 7] /\ Sequence.size s' = 3 /\
    Sequence.current_index s' = 1 /\ Sequence.capacity s' = 10 /\
    Sequence.wf s'.
Proof.
  assert (Hwf : Sequence.wf Samples.seq_567) by by_evaluation.
  assert (Hnew : 0 <= 10 < Sequence.SIZE_MOD) by by_evaluation.
  split; [exact Hwf|]. split; [exact Hnew|].
  exact (resize_keeps_the_items 0 Samples.seq_567 10 Hwf Hnew).
Defined.

Lemma assign_takes_over_the_source_567 :
  Sequence.wf Samples.seq_empty /\ Sequence.wf Samples.seq_567 /\
  exists s', Sequence.assign 0 Samples.seq_empty Samples.seq_567 = Ok s' /\
    Sequence.items s' = [5; 6; 7] /\ Sequence.size s' = 3 /\
    Sequence.current_index s' = 1 /\ Sequence.capacity s' = 3 /\
    Sequence.wf s'.
Proof.
  assert (Hwf0 : Sequence.wf Samples.seq_empty) by by_evaluation.
  assert (Hwf : Sequence.wf Samples.seq_567) by by_evaluation.
  split; [exact Hwf0|]. split; [exact Hwf|].
  exact (assign_takes_over_the_source 0 Samples.seq_empty Samples.seq_567 Hwf0 Hwf).
Defined.

Lemma copy_ctor_copies_the_source_567 :
  Sequence.wf Samples.seq_567 /\
  exists s', Sequence.copy_ctor 0 Samples.seq_567 = Ok s' /\
    Sequence.items s' = [5; 6; 7] /\ Sequence.size s' = 3 /\
    Sequence.current_index s' = 1 /\ Sequence.capacity s' = 3 /\
    Sequence.wf s'.
Proof.
  assert (Hwf : Sequence.wf Samples.seq_567) by by_evaluation.
  split; [exact Hwf|].
  exact (copy_ctor_copies_the_source 0 Samples.seq_567 Hwf).
Defined.

Lemma remove_current_keeps_the_invariant_567 :
  Sequence.wf Samples.seq_567 /\ Sequence.is_item Samples.seq_567 = true /\
  exists s', Sequence.remove_current 0 Samples.seq_567 = Ok s' /\
    Sequence.wf s' /\ Sequence.size s' = 2 /\ Sequence.capacity s' = 3.
Proof.
  assert (Hwf : Sequence.wf Samples.seq_567) by by_evaluation.
  split; [exact Hwf|]. split; [reflexivity|].
  exact (remove_current_keeps_the_invariant 0 Samples.seq_567 Hwf eq_refl).
Defined.

Lemma contains_characterised_12 :
  IntSet.wf Samples.set_12 /\
  (IntSet.contains 0 false Samples.set_12 2 = true <->
   0 < IntSet.used Samples.set_12 /\
   (false = true \/ In 2 (IntSet.members Samples.set_12))).
Proof.
  assert (Hwf : IntSet.wf Samples.set_12) by by_evaluation.
  split; [exact Hwf|].
  exact (contains_characterised 0 false Samples.set_12 2 Hwf).
Defined.


Lemma remove_takes_out_first_occurrence_12 :
  IntSet.wf Samples.set_12 /\ In 1 (IntSet.members Samples.set_12) /\
  exists s' l1 l2, IntSet.remove 0 false Samples.set_12 1 = Ok (s', true) /\
    IntSet.members Samples.set_12 = l1 ++ 1 :: l2 /\ ~ In 1 l1 /\
    IntSet.members s' = l1 ++ l2 /\
    IntSet.size s' = IntSet.size Samples.set_12 - 1 /\
    IntSet.capacity s' = IntSet.capacity Samples.set_12 /\ IntSet.wf s'.
Proof.
  assert (Hwf : IntSet.wf Samples.set_12) by by_evaluation.
  assert (Hin : In 1 (IntSet.members Samples.set_12)) by (left; reflexivity).
  split; [exact Hwf|]. split; [exact Hin|].
  exact (remove_takes_out_first_occurrence 0 false Samples.set_12 1 Hwf Hin).
Defined.

Lemma remove_of_a_stranger_changes_nothing_12 :
  IntSet.wf Samples.set_12 /\ ~ In 7 (IntSet.members Samples.set_12) /\
  IntSet.remove 0 false Samples.set_12 7 = Ok (Samples.set_12, false).
Proof.
  assert (Hwf : IntSet.wf Samples.set_12) by by_evaluation.
  assert (Hout : ~ In 7 (IntSet.members Samples.set_12))
    by (intros [H|[H|[]]]; discriminate H).
  split; [exact Hwf|]. split; [exact Hout|].
  exact (remove_of_a_stranger_changes_nothing 0 false Samples.set_12 7 Hwf Hout).
Defined.

Lemma remove_from_a_proper_set_12 :
  IntSet.wf Samples.set_12 /\ NoDup (IntSet.members Samples.set_12) /\
  In 1 (IntSet.members Samples.set_12) /\
  exists s', IntSet.remove 0 false Samples.set_12 1 = Ok (s', true) /\
    NoDup (IntSet.members s') /\ ~ In 1 (IntSet.members s') /\
    forall x, In x (IntSet.members s') <->
              In x (IntSet.members Samples.set_12) /\ x <> 1.
Proof.
  assert (Hwf : IntSet.wf Samples.set_12) by by_evaluation.
  assert (Hnodup : NoDup (IntSet.members Samples.set_12)) by compute_done.
  assert (Hin : In 1 (IntSet.members Samples.set_12)) by (left; reflexivity).
  split; [exact Hwf|]. split; [exact Hnodup|]. split; [exact Hin|].
  exact (remove_from_a_proper_set 0 false Samples.set_12 1 Hwf Hnodup Hin).
Defined.

Lemma add_then_remove_restores_12 :
  IntSet.wf Samples.set_12 /\ 1 <= IntSet.capacity Samples.set_12 /\
  ~ In 7 (IntSet.members Samples.set_12) /\
  exists s1 s2, IntSet.add 1 0 false Samples.set_12 7 = Ok (s1, true) /\
    IntSet.remove 0 false s1 7 = Ok (s2, true) /\
    IntSet.members s2 = [1; 2] /\ IntSet.size s2 = 2.
Proof.
  assert (Hwf : IntSet.wf Samples.set_12) by by_evaluation.
  assert (Hcap : 1 <= IntSet.capacity Samples.set_12) by by_evaluation.
  assert (Hout : ~ In 7 (IntSet.members Samples.set_12))
    by (intros [H|[H|[]]]; discriminate H).
  split; [exact Hwf|]. split; [exact Hcap|]. split; [exact Hout|].
  exact (add_then_remove_restores 1 0 false Samples.set_12 7 Hwf Hcap Hout).
Defined.

Lemma add_always_appends_12 :
  IntSet.wf Samples.set_12 /\ 1 <= IntSet.capacity Samples.set_12 /\
  exists s', IntSet.add 1 0 false Samples.set_12 2 = Ok (s', true) /\
    IntSet.members s' = [1; 2; 2] /\ IntSet.size s' = 3 /\
    IntSet.capacity s' = 4 /\ IntSet.wf s'.
Proof.
  assert (Hwf : IntSet.wf Samples.set_12) by by_evaluation.
  assert (Hcap : 1 <= IntSet.capacity Samples.set_12) by by_evaluation.
  split; [exact Hwf|]. split; [exact Hcap|].
  exact (add_always_appends 1 0 false Samples.set_12 2 Hwf Hcap).
Defined.

Lemma intset_resize_keeps_the_members_12 :
  IntSet.wf Samples.set_12 /\
  exists s', IntSet.resize 1 0 Samples.set_12 5 = Ok s' /\
    IntSet.members s' = [1; 2] /\ IntSet.size s' = 2 /\
    IntSet.capacity s' = 5 /\ IntSet.wf s'.
Proof.
  assert (Hwf : IntSet.wf Samples.set_12) by by_evaluation.
  split; [exact Hwf|].
  exact (intset_resize_keeps_the_members 1 0 Samples.set_12 5 Hwf).
Defined.

Lemma copies_have_the_members_of_the_source_12 :
  IntSet.wf Samples.set_12 /\
  (exists s', IntSet.copy_ctor 0 Samples.set_12 = Ok s' /\
     IntSet.members s' = [1; 2] /\ IntSet.size s' = 2 /\
     IntSet.capacity s' = 2 /\ IntSet.wf s') /\
  (exists s', IntSet.assign 0 Samples.set_empty Samples.set_12 = Ok s' /\
     IntSet.members s' = [1; 2] /\ IntSet.size s' = 2 /\
     IntSet.capacity s' = 2 /\ IntSet.wf s').
Proof.
  assert (Hwf : IntSet.wf Samples.set_12) by by_evaluation.
  split; [exact Hwf|].
  exact (copies_have_the_members_of_the_source 0 Samples.set_empty Samples.set_12 Hwf).
Defined.

Lemma operator_eq_of_equal_contents_123_321 :
  IntSet.wf Samples.set_123 /\ IntSet.wf Samples.set_321 /\
  Permutation (IntSet.members Samples.set_123) (IntSet.members Samples.set_321) /\
  IntSet.operator_eq 0 false false false Samples.set_123 Samples.set_321 = true.
Proof.
  assert (Hwf1 : IntSet.wf Samples.set_123) by by_evaluation.
  assert (Hwf2 : IntSet.wf Samples.set_321) by by_evaluation.
  assert (Hperm : Permutation (IntSet.members Samples.set_123)
                              (IntSet.members Samples.set_321))
    by exact (Permutation_rev [1; 2; 3]).
  split; [exact Hwf1|]. split; [exact Hwf2|]. split; [exact Hperm|].
  exact (operator_eq_of_equal_contents 0 false false false
           Samples.set_123 Samples.set_321 Hwf1 Hwf2 Hperm).
Defined.


Lemma intersect_collects_the_common_members_12_21 :
  IntSet.wf Samples.set_12 /\ IntSet.wf Samples.set_21 /\
  NoDup (IntSet.members Samples.set_21) /\
  exists r, IntSet.intersect 2 0 Samples.set_12 Samples.set_21 = Ok r /\
    IntSet.members r = [1; 2] /\
    IntSet.size r = Z.of_nat (length (IntSet.members r)) /\
    IntSet.capacity r = 2 /\ IntSet.wf r.
Proof.
  assert (Hwf1 : IntSet.wf Samples.set_12) by by_evaluation.
  assert (Hwf2 : IntSet.wf Samples.set_21) by by_evaluation.
  assert (Hnodup : NoDup (IntSet.members Samples.set_21)) by compute_done.
  split; [exact Hwf1|]. split; [exact Hwf2|]. split; [exact Hnodup|].
  refine (intersect_collects_the_common_members 2 0
            Samples.set_12 Samples.set_21 Hwf1 Hwf2 Hnodup _).
  by_evaluation.
Defined.

Lemma intersect_overflows_the_default_array_12_21 :
  IntSet.wf Samples.set_12 /\ IntSet.wf Samples.set_21 /\
  NoDup (IntSet.members Samples.set_21) /\
  IntSet.intersect 1 0 Samples.set_12 Samples.set_21 = Fault (StrayStore 1 1).
Proof.
  assert (Hwf1 : IntSet.wf Samples.set_12) by by_evaluation.
  assert (Hwf2 : IntSet.wf Samples.set_21) by by_evaluation.
  assert (Hnodup : NoDup (IntSet.members Samples.set_21)) by compute_done.
  split; [exact Hwf1|]. split; [exact Hwf2|]. split; [exact Hnodup|].
  refine (intersect_overflows_the_default_array 1 0
            Samples.set_12 Samples.set_21 Hwf1 Hwf2 Hnodup _).
  by_evaluation.
Defined.

Lemma subtract_of_disjoint_sets_1_2 :
  IntSet.wf Samples.set_1 /\ IntSet.wf Samples.set_2 /\
  (forall x, In x (IntSet.members Samples.set_1) ->
             ~ In x (IntSet.members Samples.set_2)) /\
  exists r, IntSet.subtract 1 0 false Samples.set_1 Samples.set_2 = Ok r /\
    IntSet.members r = [1] /\ IntSet.size r = 1 /\
    IntSet.capacity r = 1 /\ IntSet.wf r.
Proof.
  assert (Hwf1 : IntSet.wf Samples.set_1) by by_evaluation.
  assert (Hwf2 : IntSet.wf Samples.set_2) by by_evaluation.
  assert (Hdisjoint : forall x, In x (IntSet.members Samples.set_1) ->
                                ~ In x (IntSet.members Samples.set_2))
    by (intros x [<-|[]] [H|[]]; discriminate H).
  split; [exact Hwf1|]. split; [exact Hwf2|]. split; [exact Hdisjoint|].
  refine (subtract_of_disjoint_sets 1 0 false Samples.set_1 Samples.set_2
            Hwf1 Hwf2 _ _ Hdisjoint); by_evaluation.
Defined.

Lemma unionWith_of_disjoint_sets_1_2 :
  IntSet.wf Samples.set_1 /\ IntSet.wf Samples.set_2 /\
  (forall x, In x (IntSet.members Samples.set_1) ->
             ~ In x (IntSet.members Samples.set_2)) /\
  exists r, IntSet.unionWith 2 0 false Samples.set_1 Samples.set_2 = Ok r /\
    IntSet.members r = [1; 2] /\ IntSet.size r = 2 /\
    IntSet.capacity r = 2 /\ IntSet.wf r.
Proof.
  assert (Hwf1 : IntSet.wf Samples.set_1) by by_evaluation.
  assert (Hwf2 : IntSet.wf Samples.set_2) by by_evaluation.
  assert (Hdisjoint : forall x, In x (IntSet.members Samples.set_1) ->
                                ~ In x (IntSet.members Samples.set_2))
    by (intros x [<-|[]] [H|[]]; discriminate H).
  split; [exact Hwf1|]. split; [exact Hwf2|]. split; [exact Hdisjoint|].
  refine (unionWith_of_disjoint_sets 2 0 false Samples.set_1 Samples.set_2
            Hwf1 Hwf2 _ Hdisjoint); by_evaluation.
Defined.

Lemma subtract_that_fits_gives_a_part_of_the_receiver_12_21 :
  IntSet.wf Samples.set_12 /\
  exists r, IntSet.subtract 2 0 false Samples.set_12 Samples.set_21 = Ok r /\
    IntSet.wf r /\ IntSet.capacity r = 2 /\
    sublist (IntSet.members r) [1; 2] /\ IntSet.size r <= 2.
Proof.
  assert (Hwf : IntSet.wf Samples.set_12) by by_evaluation.
  split; [exact Hwf|].
  refine (subtract_that_fits_gives_a_part_of_the_receiver 2 0 false
            Samples.set_12 Samples.set_21 Hwf _ _); by_evaluation.
Defined.

Lemma subtract_overflows_the_default_array_12_21 :
  0 <= 1 < IntSet.used Samples.set_12 /\
  IntSet.subtract 1 0 false Samples.set_12 Samples.set_21 = Fault (StrayStore 1 1).
Proof.
  assert (Hover : 0 <= 1 < IntSet.used Samples.set_12) by by_evaluation.
  split; [exact Hover|].
  exact (subtract_overflows_the_default_array 1 0 false
           Samples.set_12 Samples.set_21 Hover).
Defined.

Lemma unionWith_overflows_the_default_array_1_12 :
  IntSet.wf Samples.set_1 /\ IntSet.wf Samples.set_12 /\
  (1 < IntSet.used Samples.set_1 \/ 1 < IntSet.used Samples.set_12) /\
  IntSet.unionWith 1 0 false Samples.set_1 Samples.set_12 = Fault (StrayStore 1 1).
Proof.
  assert (Hwf1 : IntSet.wf Samples.set_1) by by_evaluation.
  assert (Hwf2 : IntSet.wf Samples.set_12) by by_evaluation.
  assert (Hbig : 1 < IntSet.used Samples.set_1 \/ 1 < IntSet.used Samples.set_12)
    by (right; by_evaluation).
  split; [exact Hwf1|]. split; [exact Hwf2|]. split; [exact Hbig|].
  refine (unionWith_overflows_the_default_array 1 0 false
            Samples.set_1 Samples.set_12 Hwf1 Hwf2 _ Hbig); by_evaluation.
Defined.
